(** * A shallow embedding of the TypeScript finite state machine

    Source: [src/src/FiniteStateMachine.ts] (class [FiniteStateMachine]).

    The class is embedded by explicit state passing.  A method that mutates
    [this] becomes a function returning the machine after the call; effects
    outside the machine are made explicit too:
    - objects and arrays the caller can alias ([alphabet], [initialData]) live
      in a store of cells addressed by allocation index;
    - the observers fed by the RxJS subject are external, so [next] returns
      the list of deliveries it performed, each with the value of
      [currentState] an observer could read while it ran;
    - a JavaScript exception is a [Throw] completion.

    Lines quoted as L123 are lines of FiniteStateMachine.ts. *)

From Stdlib Require Import ZArith.
From stdpp Require Import gmap strings list.

Local Set Warnings "-register-all".



(** ** JavaScript values and the store *)

(** The numbers that are not finite: JSON has no text for them. *)
Inductive NonFinite : Type := NaN | PosInfinity | NegInfinity.

(** Values of type [any].  Objects and arrays are references into the store.
    The finite numbers are restricted to integers and function values are
    left out: none of the machine's own code computes with either. *)
Inductive JsVal : Type :=
| JUndefined
| JNull
| JBool (b : bool)
| JNum (n : Z)
| JNonFinite (k : NonFinite)
| JStr (s : string)
| JRef (a : nat).

Inductive Cell : Type :=
| CObject (props : list (string * JsVal))
| CArray (elems : list JsVal).

Abbreviation Heap := (list Cell).

(** ToBoolean, as used by [x ? a : b]. *)
Definition truthy (v : JsVal) : bool :=
  match v with
  | JUndefined | JNull => false
  | JBool b => b
  | JNum n => negb (n =? 0)%Z
  | JNonFinite k => match k with NaN => false | _ => true end
  | JStr s => negb (String.eqb s "")
  | JRef _ => true
  end.

(** [Object.prototype.toString.call(v) == '[object Array]'] and
    [... == '[object Object]']. *)
Definition is_array (h : Heap) (v : JsVal) : bool :=
  match v with
  | JRef a => match h !! a with Some (CArray _) => true | _ => false end
  | _ => false
  end.

Definition is_object (h : Heap) (v : JsVal) : bool :=
  match v with
  | JRef a => match h !! a with Some (CObject _) => true | _ => false end
  | _ => false
  end.

Inductive Error : Type := TypeError | SyntaxError.

Inductive Completion (A : Type) : Type :=
| Normal (a : A)
| Throw (e : Error).
Arguments Normal {A} a.
Arguments Throw {A} e.

(** [new_cell h c] allocates [c]; the new address is the old store size. *)
Definition new_cell (h : Heap) (c : Cell) : Heap * JsVal :=
  (h ++ [c], JRef (length h)).

(** [arr.slice()]: a new array cell with the same elements (shallow copy).
    On anything that is not an array (in particular [null]) the property
    access or the call fails with a TypeError. *)
Definition slice (h : Heap) (v : JsVal) : Heap * Completion JsVal :=
  match v with
  | JRef a =>
      match h !! a with
      | Some (CArray es) => let '(h', r) := new_cell h (CArray es) in (h', Normal r)
      | _ => (h, Throw TypeError)
      end
  | _ => (h, Throw TypeError)
  end.

(** ** Interfaces (L22-L61) *)

(** [IStateTransition]: what a subscriber receives. *)
Record IStateTransition : Type := {
  tr_from : string;
  tr_to : string;
  tr_data : JsVal
}.

(** [IStateOutput]: [data] is optional; an absent field reads [undefined]. *)
Record IStateOutput : Type := {
  out_to : string;
  out_data : JsVal
}.

(** [transFunction]: [(data: any, state?: string): IStateOutput].  Rules are
    taken to be pure and total, as the class comment asks of them. *)
Abbreviation transFunction := (JsVal -> string -> IStateOutput).

(** A state descriptor of a machine document: each field is [Some] when the
    descriptor has it as an own property. *)
Record StateDescr : Type := {
  sd_name : option string;
  sd_isAcceptance : option bool;
  sd_transition : option string
}.

(** The [states] property of a document: either an array of descriptors or
    some other value (which fails the [[object Array]] test).  The elements
    of the array are objects; a primitive element has none of the three own
    properties and is the descriptor without a field, and arrays with a
    [null] or [undefined] element are left out. *)
Inductive StatesProp : Type :=
| StatesArray (l : list StateDescr)
| StatesOther (v : JsVal).

(** The document handed to [fromJson]; [None] in a field is a missing own
    property.  [alphabet] and [initialData] are values in the store. *)
Record Document : Type := {
  doc_name : option string;
  doc_alphabet : option JsVal;
  doc_states : option StatesProp;
  doc_initialState : option string;
  doc_initialData : option JsVal
}.

Inductive Node : Type :=
| NodeState (s : StateDescr)
| NodeValue (v : JsVal).

(** [IDecisionTreeAction] (L22-L29). *)
Record IDecisionTreeAction : Type := {
  success : bool;
  node : option Node;
  action : string
}.

(** ** The notification channel *)

(** Observers are external; they are identified by a number.  The subject is
    the list of subscribed observers in subscription order, and a
    subscription remembers the observer it registered. *)
Abbreviation Observer := nat (only parsing).
Abbreviation Subject := (list Observer) (only parsing).
Abbreviation Subscription := Observer (only parsing).

(** One call of an observer's [next]: the observer, the event, and what
    [machine.currentState] evaluates to while the observer runs. *)
Record Delivery : Type := {
  dl_observer : Observer;
  dl_event : IStateTransition;
  dl_currentState : string
}.

(** ** The machine (L86-L126) *)

Definition NO_STATE : string := "[FSM] NO_STATE".
Definition NO_DATA : string := "[FSM] NO_DATA".
Definition VALID : string := "[FSM] DATA_VALID".
Definition MISSING_PROPS : string := "[FSM] MISSING_PROPS".
Definition INVALID_DATA : string := "[FSM] INVALID_DATA".

(** [_states] is an ES6 Set and [_transitions] an ES6 Map; their insertion
    order is only visible through the [states] iterator, which is not
    embedded.  [_acceptanceStates] is the lazily created hash: [None] while
    it is undefined or null, otherwise the set of its own keys (every stored
    value is [true]).  [_initialData] and [_alphabet] are [JNull] or a
    reference. *)
Record FiniteStateMachine : Type := {
  name : string;
  _curState : string;
  _states : gset string;
  _transitions : gmap string transFunction;
  _subject : Subject;
  _subscriptions : list Subscription;
  _acceptanceStates : option (gset string);
  _initialState : string;
  _initialData : JsVal;
  _alphabet : JsVal
}.

(** constructor (L114-L126) *)
Definition new_FiniteStateMachine : FiniteStateMachine := {|
  name := "";
  _curState := NO_STATE;
  _states := ∅;
  _transitions := ∅;
  _subject := [];
  _subscriptions := [];
  _acceptanceStates := None;
  _initialState := NO_STATE;
  _initialData := JNull;
  _alphabet := JNull
|}.

(** Field assignments. *)
Definition set_name (v : string) (m : FiniteStateMachine) : FiniteStateMachine :=
  {| name := v; _curState := _curState m; _states := _states m;
     _transitions := _transitions m; _subject := _subject m;
     _subscriptions := _subscriptions m; _acceptanceStates := _acceptanceStates m;
     _initialState := _initialState m; _initialData := _initialData m;
     _alphabet := _alphabet m |}.

Definition set_curState (v : string) (m : FiniteStateMachine) : FiniteStateMachine :=
  {| name := name m; _curState := v; _states := _states m;
     _transitions := _transitions m; _subject := _subject m;
     _subscriptions := _subscriptions m; _acceptanceStates := _acceptanceStates m;
     _initialState := _initialState m; _initialData := _initialData m;
     _alphabet := _alphabet m |}.

Definition set_states (v : gset string) (m : FiniteStateMachine) : FiniteStateMachine :=
  {| name := name m; _curState := _curState m; _states := v;
     _transitions := _transitions m; _subject := _subject m;
     _subscriptions := _subscriptions m; _acceptanceStates := _acceptanceStates m;
     _initialState := _initialState m; _initialData := _initialData m;
     _alphabet := _alphabet m |}.

Definition set_transitions (v : gmap string transFunction) (m : FiniteStateMachine)
  : FiniteStateMachine :=
  {| name := name m; _curState := _curState m; _states := _states m;
     _transitions := v; _subject := _subject m;
     _subscriptions := _subscriptions m; _acceptanceStates := _acceptanceStates m;
     _initialState := _initialState m; _initialData := _initialData m;
     _alphabet := _alphabet m |}.

Definition set_channel (s : Subject) (subs : list Subscription) (m : FiniteStateMachine)
  : FiniteStateMachine :=
  {| name := name m; _curState := _curState m; _states := _states m;
     _transitions := _transitions m; _subject := s;
     _subscriptions := subs; _acceptanceStates := _acceptanceStates m;
     _initialState := _initialState m; _initialData := _initialData m;
     _alphabet := _alphabet m |}.

Definition set_acceptanceStates (v : option (gset string)) (m : FiniteStateMachine)
  : FiniteStateMachine :=
  {| name := name m; _curState := _curState m; _states := _states m;
     _transitions := _transitions m; _subject := _subject m;
     _subscriptions := _subscriptions m; _acceptanceStates := v;
     _initialState := _initialState m; _initialData := _initialData m;
     _alphabet := _alphabet m |}.

Definition set_initialState (v : string) (m : FiniteStateMachine) : FiniteStateMachine :=
  {| name := name m; _curState := _curState m; _states := _states m;
     _transitions := _transitions m; _subject := _subject m;
     _subscriptions := _subscriptions m; _acceptanceStates := _acceptanceStates m;
     _initialState := v; _initialData := _initialData m;
     _alphabet := _alphabet m |}.

Definition set_initialData (v : JsVal) (m : FiniteStateMachine) : FiniteStateMachine :=
  {| name := name m; _curState := _curState m; _states := _states m;
     _transitions := _transitions m; _subject := _subject m;
     _subscriptions := _subscriptions m; _acceptanceStates := _acceptanceStates m;
     _initialState := _initialState m; _initialData := v;
     _alphabet := _alphabet m |}.

Definition set_alphabet (v : JsVal) (m : FiniteStateMachine) : FiniteStateMachine :=
  {| name := name m; _curState := _curState m; _states := _states m;
     _transitions := _transitions m; _subject := _subject m;
     _subscriptions := _subscriptions m; _acceptanceStates := _acceptanceStates m;
     _initialState := _initialState m; _initialData := _initialData m;
     _alphabet := v |}.

(** ** Getters (L159-L232) *)

Definition numStates (m : FiniteStateMachine) : nat := size (_states m).
Definition numTransitions (m : FiniteStateMachine) : nat := size (_transitions m).
Definition currentState (m : FiniteStateMachine) : string := _curState m.
Definition initialState (m : FiniteStateMachine) : string := _initialState m.

(** L219-L222.  The hash is a plain object, held as the set of its own
    keys.  [hasOwnProperty] is looked up on the hash itself: once a state
    named [hasOwnProperty] is marked, the own property (the value [true])
    hides the inherited method and the call throws. *)
Definition isAcceptance (m : FiniteStateMachine) : Completion bool :=
  match _acceptanceStates m with
  | Some marks =>
      if bool_decide ("hasOwnProperty" ∈ marks) then Throw TypeError
      else Normal (bool_decide (_curState m ∈ marks))
  | None => Normal false
  end.

(** L229-L232: [return this._alphabet.slice()], with no test for null. *)
Definition alphabet (m : FiniteStateMachine) (h : Heap) : Heap * Completion JsVal :=
  slice h (_alphabet m).

(** ** addState, addTransition, addSubscriber (L364-L419) *)

(** L364-L376.  The parameter is typed [string], so the [undefined] half of
    the guard cannot fail.  An assignment to the key [__proto__] of a plain
    object goes to the setter inherited from [Object.prototype], which
    ignores a boolean: the hash is created, and no own property is stored. *)
Definition addState (stateName : string) (acceptance : bool) (m : FiniteStateMachine)
  : FiniteStateMachine :=
  if negb (String.eqb stateName "") then
    let m1 := set_states ({[stateName]} ∪ _states m) m in
    if acceptance then
      let hash := default ∅ (_acceptanceStates m1) in
      set_acceptanceStates
        (Some (if String.eqb stateName "__proto__" then hash
               else {[stateName]} ∪ hash)) m1
    else m1
  else m.

(** L388-L405 *)
Definition addTransition (from : string) (to : transFunction) (m : FiniteStateMachine)
  : FiniteStateMachine * bool :=
  let hasFrom := bool_decide (from ∈ _states m) in
  if negb hasFrom then (m, false)
  else if bool_decide (is_Some (_transitions m !! from)) then (m, false)
  else (set_transitions (<[from := to]> (_transitions m)) m, true).

(** L414-L419: [None] stands for an undefined or null observer. *)
Definition addSubscriber (observer : option Observer) (m : FiniteStateMachine)
  : FiniteStateMachine :=
  match observer with
  | Some o => set_channel (_subject m ++ [o]) (_subscriptions m ++ [o]) m
  | None => m
  end.

(** ** next (L430-L457) *)

(** [Subject.next(ev)], called while the machine is in state [m]: every
    subscribed observer is called once, in subscription order. *)
Definition Subject_next (m : FiniteStateMachine) (ev : IStateTransition) : list Delivery :=
  map (fun o => {| dl_observer := o; dl_event := ev; dl_currentState := currentState m |})
      (_subject m).

(** L432-L434: the optional [initialState] argument. *)
Definition apply_override (initialState : option string) (m : FiniteStateMachine)
  : FiniteStateMachine :=
  match initialState with
  | Some s => if negb (String.eqb s "") then set_curState s m else m
  | None => m
  end.

Definition next (input : JsVal) (initialState : option string) (m : FiniteStateMachine)
  : FiniteStateMachine * list Delivery * option IStateOutput :=
  let m1 := apply_override initialState m in
  match _transitions m1 !! _curState m1 with
  | Some transFcn =>
      let toState := transFcn input (_curState m1) in
      let sent :=
        Subject_next m1
          {| tr_from := _curState m1;
             tr_to := out_to toState;
             tr_data := if truthy (out_data toState) then out_data toState else JNull |} in
      let m2 := set_curState (out_to toState) m1 in
      (m2, sent,
       Some {| out_to := _curState m2;
               out_data := if truthy (out_data toState) then out_data toState else input |})
  | None => (m1, [], None)
  end.

(** ** clear (L465-L480) *)

(** Every subscription is unsubscribed from the old subject, which is then
    dropped for a new one; the machine only ever publishes to [_subject]. *)
Definition clear (m : FiniteStateMachine) : FiniteStateMachine := {|
  name := name m;
  _curState := NO_STATE;
  _states := ∅;
  _transitions := ∅;
  _subject := [];
  _subscriptions := [];
  _acceptanceStates := None;
  _initialState := NO_STATE;
  _initialData := JNull;
  _alphabet := JNull
|}.

(** ** JSON.parse(JSON.stringify(v)) *)

(** The structure reachable from a value, as a finite tree. *)
Inductive Tree : Type :=
| TUndefined
| TNull
| TBool (b : bool)
| TNum (n : Z)
| TNonFinite (k : NonFinite)
| TStr (s : string)
| TArray (elems : list Tree)
| TObject (props : list (string * Tree)).

(** Unfolding of the store from [v], at most [fuel] references deep. *)
Fixpoint structure (fuel : nat) (h : Heap) (v : JsVal) {struct fuel} : option Tree :=
  match v with
  | JUndefined => Some TUndefined
  | JNull => Some TNull
  | JBool b => Some (TBool b)
  | JNum n => Some (TNum n)
  | JNonFinite k => Some (TNonFinite k)
  | JStr s => Some (TStr s)
  | JRef a =>
      match fuel with
      | O => None
      | S n =>
          match h !! a with
          | Some (CArray es) => TArray <$> mapM (structure n h) es
          | Some (CObject ps) =>
              TObject <$> mapM (fun kv => pair (fst kv) <$> structure n h (snd kv)) ps
          | None => None
          end
      end
  end.

(** A chain of distinct references is no longer than the store, so the
    unfolding with this much fuel is [None] only on a cyclic value (where
    [JSON.stringify] throws a TypeError) or on a dangling reference. *)
Definition deep (h : Heap) (v : JsVal) : option Tree :=
  structure (S (length h)) h v.

(** What [JSON.stringify] writes, as the tree its text denotes: an
    [undefined] property is skipped, an [undefined] array element is written
    [null], a number that is not finite is written [null], and for
    [undefined] itself no text is produced ([None]). *)
Fixpoint to_json (t : Tree) : option Tree :=
  match t with
  | TUndefined => None
  | TNonFinite _ => Some TNull
  | TArray l => Some (TArray (map (fun x => default TNull (to_json x)) l))
  | TObject l =>
      Some (TObject (omap (fun kv => let '(k, x) := kv in pair k <$> to_json x) l))
  | _ => Some t
  end.

(** Allocation threaded through a list, left to right. *)
Definition alloc_each {A B : Type} (f : A -> Heap -> Heap * B)
  : list A -> Heap -> Heap * list B :=
  fix go (l : list A) (h : Heap) : Heap * list B :=
    match l with
    | [] => (h, [])
    | x :: l' =>
        let '(h1, y) := f x h in
        let '(h2, ys) := go l' h1 in
        (h2, y :: ys)
    end.

(** [JSON.parse]: builds the value denoted by a text in new cells. *)
Fixpoint alloc (t : Tree) (h : Heap) : Heap * JsVal :=
  match t with
  | TUndefined => (h, JUndefined)
  | TNull => (h, JNull)
  | TBool b => (h, JBool b)
  | TNum n => (h, JNum n)
  | TNonFinite k => (h, JNonFinite k)
  | TStr s => (h, JStr s)
  | TArray l =>
      let '(h1, vs) := alloc_each alloc l h in
      new_cell h1 (CArray vs)
  | TObject l =>
      let '(h1, ps) :=
        alloc_each (fun kv h0 => let '(k, x) := kv in
                                 let '(h', v) := alloc x h0 in (h', (k, v))) l h in
      new_cell h1 (CObject ps)
  end.

Definition JSON_clone (h : Heap) (v : JsVal) : Heap * Completion JsVal :=
  match deep h v with
  | None => (h, Throw TypeError)
  | Some t =>
      match to_json t with
      | None => (h, Throw SyntaxError)
      | Some j => let '(h', r) := alloc j h in (h', Normal r)
      end
  end.

(** L209-L212 *)
Definition initialData (m : FiniteStateMachine) (h : Heap) : Heap * Completion JsVal :=
  if truthy (_initialData m) then JSON_clone h (_initialData m)
  else (h, Normal JNull).

(** Writes a caller can make to the store. *)
Inductive Mutation : Type :=
| Write (a : nat) (c : Cell)
| Allocate (c : Cell).

Definition mutate (mu : Mutation) (h : Heap) : Heap :=
  match mu with
  | Write a c => <[a := c]> h
  | Allocate c => h ++ [c]
  end.

Definition mutate_all (mus : list Mutation) (h : Heap) : Heap :=
  fold_left (fun h0 mu => mutate mu h0) mus h.


(** No [undefined] and no number that is not finite anywhere: the tree is
    the denotation of a JSON text. *)
Fixpoint plain (t : Tree) : bool :=
  match t with
  | TUndefined => false
  | TNonFinite _ => false
  | TArray l => forallb plain l
  | TObject l => forallb (fun kv => let '(_, x) := kv in plain x) l
  | _ => true
  end.

(** ** Notions used to state the properties *)

(** Structural induction on trees, through the lists of children. *)
Section TreeInduction.

Variable P : Tree -> Prop.
Hypothesis P_undefined : P TUndefined.
Hypothesis P_null : P TNull.
Hypothesis P_bool : forall b, P (TBool b).
Hypothesis P_num : forall n, P (TNum n).
Hypothesis P_nonfinite : forall k, P (TNonFinite k).
Hypothesis P_str : forall s, P (TStr s).
Hypothesis P_array : forall l, Forall P l -> P (TArray l).
Hypothesis P_object : forall l, Forall (fun kv => P (snd kv)) l -> P (TObject l).

Fixpoint Tree_nested_ind (t : Tree) : P t :=
  match t with
  | TUndefined => P_undefined
  | TNull => P_null
  | TBool b => P_bool b
  | TNum n => P_num n
  | TNonFinite k => P_nonfinite k
  | TStr s => P_str s
  | TArray l =>
      P_array l
        ((fix go (l : list Tree) : Forall P l :=
            match l with
            | [] => List.Forall_nil P
            | x :: l' => @List.Forall_cons _ P x l' (Tree_nested_ind x) (go l')
            end) l)
  | TObject l =>
      P_object l
        ((fix go (l : list (string * Tree)) : Forall (fun kv => P (snd kv)) l :=
            match l with
            | [] => List.Forall_nil _
            | kv :: l' =>
                @List.Forall_cons _ (fun kv => P (snd kv)) kv l'
                  (match kv as kv0 return P (snd kv0) with
                   | (_, x) => Tree_nested_ind x
                   end) (go l')
            end) l)
  end.

End TreeInduction.

(** Nesting depth of a tree: the fuel its unfolding needs. *)
Fixpoint depth (t : Tree) : nat :=
  match t with
  | TArray l => S (max_list (map depth l))
  | TObject l => S (max_list (map (fun kv => let '(_, x) := kv in depth x) l))
  | _ => 0
  end.

(** References at or above an address. *)
Definition val_above (base : nat) (v : JsVal) : Prop :=
  match v with JRef a => base <= a | _ => True end.

(** Every reference stored in the cell is at or above the address. *)
Definition cell_above (base : nat) (c : Cell) : Prop :=
  match c with
  | CObject ps => Forall (fun kv => val_above base (snd kv)) ps
  | CArray es => Forall (val_above base) es
  end.

(** What one allocation does: it only appends cells, these refer to
    appended cells only, at least [d x] of them, and the result is in the
    relation [R] with its source. *)
Definition allocates {A B : Type} (f : A -> Heap -> Heap * B) (d : A -> nat)
    (above : nat -> B -> Prop) (R : Heap -> A -> B -> Prop) (x : A) : Prop :=
  forall h h' y, f x h = (h', y) ->
    exists ext, h' = h ++ ext
      /\ Forall (cell_above (length h)) ext
      /\ above (length h) y
      /\ d x <= length ext
      /\ R h' x y.

(** The copy unfolds to the tree it was built from. *)
Definition unfolds_to (h : Heap) (x : Tree) (v : JsVal) : Prop :=
  forall n, depth x <= n -> structure n h v = Some x.

(** The event [next] publishes when the rule [f] is the one registered for
    the state in force. *)
Definition event_of (f : transFunction) (input : JsVal) (s : string) : IStateTransition :=
  {| tr_from := s;
     tr_to := out_to (f input s);
     tr_data := if truthy (out_data (f input s)) then out_data (f input s) else JNull |}.

(** The rules are always attached to known states. *)
Definition rules_on_states (m : FiniteStateMachine) : Prop :=
  dom (_transitions m) ⊆ _states m.

(** The machine as [fromJson] has it when it enters the loop over the state
    descriptors (L299-L301, after L266). *)
Definition loader_start (dname : string) (init : option string) (copy : JsVal)
    (m : FiniteStateMachine) : FiniteStateMachine :=
  set_curState (default NO_STATE init)
    (set_initialState (default NO_STATE init) (set_name dname (set_alphabet copy m))).


(** ** fromJson (L242-L355) and create (L137-L152) *)

Definition failure (a : string) (n : option Node) : IDecisionTreeAction :=
  {| success := false; node := n; action := a |}.

Definition valid : IDecisionTreeAction :=
  {| success := true; node := None; action := VALID |}.

Section Loader.

(** [new Function('data', 'state', body)].  The constructor parses its
    body: [None] is the SyntaxError it throws on a malformed one. *)
Variable Function_ctor : string -> option transFunction.

(** The loop L308-L331.  The second component is [None] when the loop ran
    to its end, and otherwise how [fromJson] was left from inside it. *)
Fixpoint load_states (states : list StateDescr) (m : FiniteStateMachine)
  : FiniteStateMachine * option (Completion IDecisionTreeAction) :=
  match states with
  | [] => (m, None)
  | state :: rest =>
      match sd_name state, sd_isAcceptance state, sd_transition state with
      | Some sname, Some acc, Some body =>
          match Function_ctor body with
          | Some fcn =>
              let m1 := addState sname acc m in
              let m2 := fst (addTransition sname fcn m1) in
              load_states rest m2
          | None => (m, Some (Throw SyntaxError))
          end
      | _, _, _ => (m, Some (Normal (failure INVALID_DATA (Some (NodeState state)))))
      end
  end.

Definition fromJson (data : option Document) (m : FiniteStateMachine) (h : Heap)
  : FiniteStateMachine * Heap * Completion IDecisionTreeAction :=
  match data with
  | None => (m, h, Normal (failure NO_DATA None))
  | Some data =>
      match doc_name data, doc_alphabet data, doc_states data with
      | Some dname, Some alpha, Some states =>
          if is_array h alpha then
            match slice h alpha with
            | (h1, Throw e) => (m, h1, Throw e)
            | (h1, Normal copy) =>
                let m1 := set_alphabet copy m in
                match states with
                | StatesOther _ => (m1, h1, Normal (failure INVALID_DATA None))
                | StatesArray states =>
                    if (length states =? 0)%nat
                    then (m1, h1, Normal (failure NO_STATE None))
                    else
                      let m2 := set_name dname m1 in
                      let m3 :=
                        set_initialState (default NO_STATE (doc_initialState data)) m2 in
                      let m4 := set_curState (_initialState m3) m3 in
                      match load_states states m4 with
                      | (m5, Some stop) => (m5, h1, stop)
                      | (m5, None) =>
                          match doc_initialData data with
                          | None => (m5, h1, Normal valid)
                          | Some tmp =>
                              if is_object h1 tmp then
                                match JSON_clone h1 tmp with
                                | (h2, Normal v) =>
                                    (set_initialData v m5, h2, Normal valid)
                                | (h2, Throw e) => (m5, h2, Throw e)
                                end
                              else
                                (m5, h1,
                                 Normal (failure INVALID_DATA (Some (NodeValue tmp))))
                          end
                      end
                end
            end
          else (m, h, Normal (failure INVALID_DATA None))
      | _, _, _ => (m, h, Normal (failure MISSING_PROPS None))
      end
  end.

(** The static factory; [Normal None] is the null return.  The method has
    no try/catch: an exception thrown by [fromJson] leaves [create] too. *)
Definition create (data : option Document) (mname : option string) (h : Heap)
  : Heap * Completion (option FiniteStateMachine) :=
  match data with
  | None => (h, Normal None)
  | Some _ =>
      match fromJson data new_FiniteStateMachine h with
      | (machine, h', Normal result) =>
          if success result
          then (h', Normal (Some (set_name (default "" mname) machine)))
          else (h', Normal None)
      | (_, h', Throw e) => (h', Throw e)
      end
  end.

(** ** Sequences of calls *)

(** What surrounds a machine: the store and the deliveries made so far. *)
Record World : Type := {
  machine : FiniteStateMachine;
  heap : Heap;
  log : list Delivery
}.

Inductive Call : Type :=
| CallAddState (stateName : string) (acceptance : bool)
| CallAddTransition (from : string) (to : transFunction)
| CallAddSubscriber (observer : option Observer)
| CallNext (input : JsVal) (initialState : option string)
| CallFromJson (data : option Document)
| CallClear.

Definition call (c : Call) (w : World) : World :=
  match c with
  | CallAddState s acc =>
      {| machine := addState s acc (machine w); heap := heap w; log := log w |}
  | CallAddTransition s f =>
      {| machine := fst (addTransition s f (machine w)); heap := heap w; log := log w |}
  | CallAddSubscriber o =>
      {| machine := addSubscriber o (machine w); heap := heap w; log := log w |}
  | CallNext input st =>
      let '(m', sent, _) := next input st (machine w) in
      {| machine := m'; heap := heap w; log := log w ++ sent |}
  | CallFromJson d =>
      let '(m', h', _) := fromJson d (machine w) (heap w) in
      {| machine := m'; heap := h'; log := log w |}
  | CallClear =>
      {| machine := clear (machine w); heap := heap w; log := log w |}
  end.

Definition run (cs : list Call) (w : World) : World :=
  fold_left (fun w0 c => call c w0) cs w.

(** ** Notions about the loader and about sequences of calls *)

(** A descriptor the loop accepts. *)
Definition well_formed (sd : StateDescr) : Prop :=
  is_Some (sd_name sd) /\ is_Some (sd_isAcceptance sd)
  /\ exists body, sd_transition sd = Some body /\ is_Some (Function_ctor body).

(** The descriptor's state is in the machine, with a rule. *)
Definition registered (m : FiniteStateMachine) (sd : StateDescr) : Prop :=
  forall s, sd_name sd = Some s -> s <> "" ->
    s ∈ _states m /\ is_Some (_transitions m !! s).

(** The call returned a failure that reports no node: it was left by one
    of the returns of L244-L297, before the assignments of L299-L301. *)
Definition left_early (c : Completion IDecisionTreeAction) : Prop :=
  exists r, c = Normal r /\ success r = false /\ node r = None.

(** The last step, L334-L354. *)
Inductive initialData_outcome (m5 : FiniteStateMachine) (h1 : Heap)
  : option JsVal -> FiniteStateMachine * Heap * Completion IDecisionTreeAction -> Prop :=
| out_valid :
    initialData_outcome m5 h1 None (m5, h1, Normal valid)
| out_bad_initialData tmp :
    is_object h1 tmp = false ->
    initialData_outcome m5 h1 (Some tmp)
      (m5, h1, Normal (failure INVALID_DATA (Some (NodeValue tmp))))
| out_clone_throws tmp h2 e :
    is_object h1 tmp = true -> JSON_clone h1 tmp = (h2, Throw e) ->
    initialData_outcome m5 h1 (Some tmp) (m5, h2, Throw e)
| out_valid_with_data tmp h2 v :
    is_object h1 tmp = true -> JSON_clone h1 tmp = (h2, Normal v) ->
    initialData_outcome m5 h1 (Some tmp) (set_initialData v m5, h2, Normal valid).

(** How [fromJson] can end. *)
Inductive fromJson_outcome (m : FiniteStateMachine) (h : Heap)
  : option Document -> FiniteStateMachine * Heap * Completion IDecisionTreeAction -> Prop :=
| out_no_data :
    fromJson_outcome m h None (m, h, Normal (failure NO_DATA None))
| out_missing_props doc :
    doc_name doc = None \/ doc_alphabet doc = None \/ doc_states doc = None ->
    fromJson_outcome m h (Some doc) (m, h, Normal (failure MISSING_PROPS None))
| out_bad_alphabet doc alpha :
    doc_alphabet doc = Some alpha -> is_array h alpha = false ->
    fromJson_outcome m h (Some doc) (m, h, Normal (failure INVALID_DATA None))
| out_bad_states doc a es v :
    doc_alphabet doc = Some (JRef a) -> h !! a = Some (CArray es) ->
    doc_states doc = Some (StatesOther v) ->
    fromJson_outcome m h (Some doc)
      (set_alphabet (JRef (length h)) m, h ++ [CArray es],
       Normal (failure INVALID_DATA None))
| out_no_states doc a es :
    doc_alphabet doc = Some (JRef a) -> h !! a = Some (CArray es) ->
    doc_states doc = Some (StatesArray []) ->
    fromJson_outcome m h (Some doc)
      (set_alphabet (JRef (length h)) m, h ++ [CArray es],
       Normal (failure NO_STATE None))
| out_loop_stop doc dname a es l m5 stop :
    doc_name doc = Some dname ->
    doc_alphabet doc = Some (JRef a) -> h !! a = Some (CArray es) ->
    doc_states doc = Some (StatesArray l) ->
    load_states l
      (loader_start dname (doc_initialState doc) (JRef (length h)) m)
      = (m5, Some stop) ->
    fromJson_outcome m h (Some doc) (m5, h ++ [CArray es], stop)
| out_loaded doc dname a es l m5 m' h' r :
    doc_name doc = Some dname ->
    doc_alphabet doc = Some (JRef a) -> h !! a = Some (CArray es) ->
    doc_states doc = Some (StatesArray l) -> l <> [] ->
    load_states l
      (loader_start dname (doc_initialState doc) (JRef (length h)) m)
      = (m5, None) ->
    initialData_outcome m5 (h ++ [CArray es]) (doc_initialData doc) (m', h', r) ->
    fromJson_outcome m h (Some doc) (m', h', r).



End Loader.

(** A newly constructed machine in a store [h] of the caller's objects. *)
Definition new_World (h : Heap) : World :=
  {| machine := new_FiniteStateMachine; heap := h; log := [] |}.

(** ** Data for the worked examples *)

(** A stand-in for the Function constructor: the body text is read as the
    name of the target state, so the rule is [return {to: body, data: data}];
    one text is taken to be malformed. *)
Definition goto_compiler (body : string) : option transFunction :=
  if String.eqb body "syntax error(" then None
  else Some (fun data _ => {| out_to := body; out_data := data |}).

(** The caller's objects: an alphabet array and an initial data object. *)
Definition store0 : Heap :=
  [CArray [JStr "a"; JStr "b"]; CObject [("amt", JNum 68); ("change", JNum 0)]].

Definition S1_descr : StateDescr :=
  {| sd_name := Some "S1"; sd_isAcceptance := Some true; sd_transition := Some "S2" |}.
Definition S2_descr : StateDescr :=
  {| sd_name := Some "S2"; sd_isAcceptance := Some false; sd_transition := Some "S1" |}.
Definition broken_descr : StateDescr :=
  {| sd_name := Some "S3"; sd_isAcceptance := None; sd_transition := Some "S1" |}.

Definition machine1 : Document :=
  {| doc_name := Some "Machine1"; doc_alphabet := Some (JRef 0);
     doc_states := Some (StatesArray [S1_descr; S2_descr]);
     doc_initialState := Some "S1"; doc_initialData := Some (JRef 1) |}.


(** No [initialState], no [initialData]. *)
Definition machine2 : Document :=
  {| doc_name := Some "Machine2"; doc_alphabet := Some (JRef 0);
     doc_states := Some (StatesArray [S2_descr]);
     doc_initialState := None; doc_initialData := None |}.

(** The second descriptor has no [isAcceptance]. *)
Definition machine_broken : Document :=
  {| doc_name := Some "Broken"; doc_alphabet := Some (JRef 0);
     doc_states := Some (StatesArray [S1_descr; broken_descr]);
     doc_initialState := None; doc_initialData := None |}.


(** The rule of the change machine's last step: to [c], with no payload. *)
Definition to_c : transFunction :=
  fun _ _ => {| out_to := "c"; out_data := JUndefined |}.

(** States [q] and [c], a rule at [q], and observer 7 subscribed. *)
Definition coin_machine : FiniteStateMachine :=
  addSubscriber (Some 7)
    (fst (addTransition "q" to_c
            (addState "c" true (addState "q" false new_FiniteStateMachine)))).

(** ** Further notions about the machine *)

(** The acceptance marks as a set: empty while the hash does not exist. *)
Definition acceptanceMarks (m : FiniteStateMachine) : gset string :=
  default ∅ (_acceptanceStates m).

(** Where [next] takes the machine from state [s] on input [x]: the target
    of the rule of [s], or [s] itself when it has none. *)
Definition target (m : FiniteStateMachine) (s : string) (x : JsVal) : string :=
  match _transitions m !! s with
  | Some f => out_to (f x s)
  | None => s
  end.

(** Successive calls [next(x)] without an override, keeping the machine. *)
Definition feed (inputs : list JsVal) (m : FiniteStateMachine) : FiniteStateMachine :=
  fold_left (fun m0 x => fst (fst (next x None m0))) inputs m.

(** The name under which the loader registers a descriptor: [addState]
    ignores the empty name. *)
Definition registered_name (sd : StateDescr) : option string :=
  match sd_name sd with
  | Some s => if String.eqb s "" then None else Some s
  | None => None
  end.

Definition registered_names (l : list StateDescr) : gset string :=
  list_to_set (omap registered_name l).

(** Writes to cells below an address (cells that existed before it was the
    size of the store). *)
Definition below (base : nat) (mus : list Mutation) : Prop :=
  Forall (fun mu => match mu with Write a _ => a < base | Allocate _ => True end) mus.

Section LoaderNotions.

Variable Function_ctor : string -> option transFunction.

(** The rule compiled from the first descriptor of the list named [s]. *)
Fixpoint first_rule (l : list StateDescr) (s : string) : option transFunction :=
  match l with
  | [] => None
  | sd :: rest =>
      if decide (sd_name sd = Some s)
      then match sd_transition sd with
           | Some body => Function_ctor body
           | None => None
           end
      else first_rule rest s
  end.

(** A document that [fromJson] accepts, in the store [h]. *)
Definition loadable (h : Heap) (doc : Document) : Prop :=
  exists dname a es l,
    doc_name doc = Some dname
    /\ doc_alphabet doc = Some (JRef a) /\ h !! a = Some (CArray es)
    /\ doc_states doc = Some (StatesArray l) /\ l <> []
    /\ Forall (well_formed Function_ctor) l
    /\ match doc_initialData doc with
       | None => True
       | Some tmp =>
           is_object (h ++ [CArray es]) tmp = true
           /\ is_Some (deep (h ++ [CArray es]) tmp)
       end.

End LoaderNotions.

(** The names the loader marks as acceptance states. *)
Definition marked_names (l : list StateDescr) : gset string :=
  list_to_set
    (omap (fun sd => match sd_isAcceptance sd with
                     | Some true => registered_name sd
                     | _ => None
                     end) l).

(** The state descriptors of a document, when [states] is an array. *)
Definition doc_descriptors (doc : Document) : list StateDescr :=
  match doc_states doc with
  | Some (StatesArray l) => l
  | _ => []
  end.

(** Writes that leave the cell at one address alone. *)
Definition avoiding (addr : nat) (mus : list Mutation) : Prop :=
  Forall (fun mu => match mu with Write a _ => a <> addr | Allocate _ => True end) mus.

(** ** Callers: machines of the test suite (test/finite-state-machine.specs.ts) *)

(** [data == k] for a parameter declared [number]: numeric equality, with
    [true] and [false] read as 1 and 0; [undefined], [null], NaN and the
    infinities equal no integer.  Strings and objects are outside the
    declared type. *)
Definition loose_eq_number (data : JsVal) (k : Z) : bool :=
  match data with
  | JNum n => (n =? k)%Z
  | JBool b => ((if b then 1 else 0) =? k)%Z
  | _ => false
  end.

(** [{to: s}]: the [data] field is absent. *)
Definition goto (s : string) : IStateOutput := {| out_to := s; out_data := JUndefined |}.

(** specs L59-L64: a binary sequence with an even number of zeros. *)
Definition f1 : transFunction :=
  fun data _ =>
    if loose_eq_number data 1 then goto "S1"
    else if loose_eq_number data 0 then goto "S2" else goto "S1".

Definition f2 : transFunction :=
  fun data _ =>
    if loose_eq_number data 1 then goto "S2"
    else if loose_eq_number data 0 then goto "S1" else goto "S2".

(** specs L82-L87: all binary sequences that end with a 1. *)
Definition f13 : transFunction :=
  fun data _ =>
    if loose_eq_number data 0 then goto "S1"
    else if loose_eq_number data 1 then goto "S2" else goto "S1".

Definition f23 : transFunction :=
  fun data _ =>
    if loose_eq_number data 1 then goto "S2"
    else if loose_eq_number data 0 then goto "S1" else goto "S2".

(** The machine of 'machine test #1' (specs L310-L319). *)
Definition even_zeros_machine : FiniteStateMachine :=
  fst (addTransition "S2" f2
         (fst (addTransition "S1" f1
                 (addState "S2" false (addState "S1" true new_FiniteStateMachine))))).

(** The machine of 'machine test #3' (specs L480-L489). *)
Definition ends_in_one_machine : FiniteStateMachine :=
  fst (addTransition "S2" f23
         (fst (addTransition "S1" f13
                 (addState "S2" true (addState "S1" false new_FiniteStateMachine))))).

(** The driving loop of the tests (specs L326-L330): the first element with
    the start state, the others without; [binary[0]] of an empty array is
    [undefined]. *)
Definition drive (inputs : list JsVal) (start : string) (m : FiniteStateMachine)
  : FiniteStateMachine :=
  feed (tail inputs) (fst (fst (next (default JUndefined (head inputs)) (Some start) m))).

(** ** More data for the worked examples *)

(** [S1] is described twice, with different transitions and marks. *)
Definition S1_again : StateDescr :=
  {| sd_name := Some "S1"; sd_isAcceptance := Some false; sd_transition := Some "S1" |}.

Definition machine_twice : Document :=
  {| doc_name := Some "Twice"; doc_alphabet := Some (JRef 0);
     doc_states := Some (StatesArray [S1_descr; S1_again; S2_descr]);
     doc_initialState := Some "S1"; doc_initialData := None |}.

(** The transition text of the second descriptor does not compile. *)
Definition garbled_descr : StateDescr :=
  {| sd_name := Some "S2"; sd_isAcceptance := Some false;
     sd_transition := Some "syntax error(" |}.

Definition machine_garbled : Document :=
  {| doc_name := Some "Garbled"; doc_alphabet := Some (JRef 0);
     doc_states := Some (StatesArray [S1_descr; garbled_descr]);
     doc_initialState := None; doc_initialData := None |}.


(** * Properties *)

(** ** The stepping operation *)

Lemma apply_override_frame (st : option string) (m : FiniteStateMachine) :
  _transitions (apply_override st m) = _transitions m
  /\ _subject (apply_override st m) = _subject m
  /\ _states (apply_override st m) = _states m.
Proof.
  destruct st as [s|]; simpl; [|done].
  by destruct (negb (String.eqb s "")).
Qed.

Lemma apply_override_none (st : option string) (m : FiniteStateMachine) :
  st = None \/ st = Some "" -> apply_override st m = m.
Proof. by intros [-> | ->]. Qed.

Lemma next_fires (input : JsVal) (st : option string) (m : FiniteStateMachine)
    (f : transFunction) :
  let m1 := apply_override st m in
  _transitions m1 !! currentState m1 = Some f ->
  next input st m =
    (set_curState (out_to (f input (currentState m1))) m1,
     Subject_next m1 (event_of f input (currentState m1)),
     Some {| out_to := out_to (f input (currentState m1));
             out_data := if truthy (out_data (f input (currentState m1)))
                         then out_data (f input (currentState m1)) else input |}).
Proof.
  intros m1 Hf. subst m1. unfold next, currentState in *. cbv zeta.
  by rewrite Hf.
Qed.

Lemma count_deliveries (m : FiniteStateMachine) (ev : IStateTransition) (o : Observer) :
  length (filter (fun d => dl_observer d = o) (Subject_next m ev))
  = length (filter (fun x => x = o) (_subject m)).
Proof.
  unfold Subject_next. induction (_subject m) as [|x l IH]; [done|].
  cbn [map]. rewrite !filter_cons. cbn [dl_observer].
  destruct (decide (x = o)); cbn [length]; by rewrite IH.
Qed.

Lemma next_idle (input : JsVal) (st : option string) (m : FiniteStateMachine) :
  _transitions (apply_override st m) !! currentState (apply_override st m) = None ->
  next input st m = (apply_override st m, [], None).
Proof. intros Hnone. unfold next, currentState in *. cbv zeta. by rewrite Hnone. Qed.

(** C4.  When no rule is registered for the state in force (the override
    when one is passed, the current state otherwise), [next] returns the
    absent result, delivers no event, and leaves [currentState] at that
    state; without an override the whole machine is as it was. *)
Theorem next_absent_without_rule (input : JsVal) (st : option string)
    (m : FiniteStateMachine) :
  _transitions (apply_override st m) !! currentState (apply_override st m) = None ->
  next input st m = (apply_override st m, [], None)
  /\ currentState (fst (fst (next input st m))) = currentState (apply_override st m)
  /\ (st = None \/ st = Some "" -> fst (fst (next input st m)) = m).
Proof.
  intros Hnone.
  rewrite (next_idle input st m Hnone); simpl. split; [done|]. split; [done|].
  apply apply_override_none.
Qed.

(** C2.  When a rule [f] is registered for the state in force, [next] calls
    every subscription exactly once, in subscription order, with the one
    event [{from, to, data}]; [from] is the state being left, which is also
    what [currentState] still reads while the observers run, and only the
    returned machine is in the target state. *)
Theorem next_publishes_once_before_moving (input : JsVal) (st : option string)
    (m : FiniteStateMachine) (f : transFunction) :
  let m1 := apply_override st m in
  let ev := event_of f input (currentState m1) in
  _transitions m1 !! currentState m1 = Some f ->
  forall m' sent result, next input st m = (m', sent, result) ->
    sent = map (fun o => {| dl_observer := o; dl_event := ev;
                            dl_currentState := currentState m1 |}) (_subject m)
    /\ (forall o, length (filter (fun d => dl_observer d = o) sent)
                  = length (filter (fun x => x = o) (_subject m)))
    /\ (forall d, d ∈ sent ->
          dl_event d = ev /\ tr_from (dl_event d) = currentState m1
          /\ dl_currentState d = tr_from (dl_event d))
    /\ currentState m' = tr_to ev.
Proof.
  intros m1 ev Hf m' sent result Hnext.
  rewrite (next_fires input st m f Hf) in Hnext. fold m1 in Hnext.
  injection Hnext as <- <- <-.
  assert (_subject m1 = _subject m) as Hs by apply apply_override_frame.
  split; [| split; [| split]].
  - unfold Subject_next. by rewrite Hs.
  - intros o. rewrite count_deliveries. by rewrite Hs.
  - intros d Hd. unfold Subject_next in Hd.
    apply list_elem_of_fmap in Hd as (o & -> & _). done.
  - done.
Qed.


(** ** Properties kept by every call *)

Section Preservation.

Variable compile : string -> option transFunction.
Variable P : FiniteStateMachine -> Prop.

Hypothesis P_addState : forall s acc m, P m -> P (addState s acc m).
Hypothesis P_addTransition : forall s f m, P m -> P (fst (addTransition s f m)).
Hypothesis P_name : forall v m, P m -> P (set_name v m).
Hypothesis P_curState : forall v m, P m -> P (set_curState v m).
Hypothesis P_initialState : forall v m, P m -> P (set_initialState v m).
Hypothesis P_initialData : forall v m, P m -> P (set_initialData v m).
Hypothesis P_alphabet : forall v m, P m -> P (set_alphabet v m).

Lemma load_states_preserves (l : list StateDescr) (m : FiniteStateMachine) :
  P m -> P (fst (load_states compile l m)).
Proof.
  revert m. induction l as [|sd l IH]; intros m Hm; simpl; [done|].
  destruct (sd_name sd), (sd_isAcceptance sd), (sd_transition sd); simpl; try done.
  destruct (compile _); simpl; [|done].
  apply IH. by apply P_addTransition, P_addState.
Qed.

Lemma fromJson_preserves (d : option Document) (m : FiniteStateMachine) (h : Heap) :
  P m -> P (fst (fst (fromJson compile d m h))).
Proof.
  intros Hm. unfold fromJson.
  destruct d as [d|]; [|done].
  destruct (doc_name d), (doc_alphabet d), (doc_states d) as [[l|]|]; try done.
  - destruct (is_array h _); [|done].
    destruct (slice h _) as [h1 [copy|e]]; [|done].
    destruct (length l =? 0)%nat; [by apply P_alphabet|].
    match goal with
    | |- context [load_states compile l ?m0] =>
        pose proof (load_states_preserves l m0) as Hl;
        destruct (load_states compile l m0) as [m5 [stop|]]
    end; simpl in *.
    + apply Hl. by apply P_curState, P_initialState, P_name, P_alphabet.
    + assert (P m5) as H5
        by (apply Hl; by apply P_curState, P_initialState, P_name, P_alphabet).
      destruct (doc_initialData d) as [tmp|]; [|done].
      destruct (is_object h1 tmp); [|done].
      destruct (JSON_clone h1 tmp) as [h2 [v|e]]; simpl; [|done].
      by apply P_initialData.
  - destruct (is_array h _); [|done].
    destruct (slice h _) as [h1 [copy|e]]; [|done].
    by apply P_alphabet.
Qed.

Lemma next_preserves (input : JsVal) (st : option string) (m : FiniteStateMachine) :
  P m -> P (fst (fst (next input st m))).
Proof.
  intros Hm.
  assert (P (apply_override st m)) as H1.
  { destruct st as [s|]; simpl; [|done].
    destruct (negb (String.eqb s "")); [by apply P_curState | done]. }
  unfold next. cbv zeta.
  destruct (_transitions _ !! _); simpl; [by apply P_curState | done].
Qed.

(** Every call other than [clear] and [addSubscriber] keeps [P]. *)
Lemma call_preserves (c : Call) (w : World) :
  P (machine w) ->
  (c = CallClear -> P (clear (machine w))) ->
  (forall o, c = CallAddSubscriber o -> P (addSubscriber o (machine w))) ->
  P (machine (call compile c w)).
Proof.
  intros Hw Hclear Hsub.
  destruct c as [s acc|s f|o|input st|d|]; simpl.
  - by apply P_addState.
  - by apply P_addTransition.
  - by apply Hsub.
  - pose proof (next_preserves input st (machine w) Hw) as Hn.
    by destruct (next input st (machine w)) as [[m' sent] r].
  - pose proof (fromJson_preserves d (machine w) (heap w) Hw) as Hj.
    by destruct (fromJson compile d (machine w) (heap w)) as [[m' h'] r].
  - by apply Hclear.
Qed.

End Preservation.

(** ** addTransition *)

Lemma addTransition_result (from : string) (to : transFunction) (m : FiniteStateMachine) :
  (from ∈ _states m /\ _transitions m !! from = None
   /\ addTransition from to m = (set_transitions (<[from := to]> (_transitions m)) m, true))
  \/ ((from ∉ _states m \/ is_Some (_transitions m !! from))
      /\ addTransition from to m = (m, false)).
Proof.
  unfold addTransition.
  destruct (decide (from ∈ _states m)) as [Hin|Hin].
  - rewrite (bool_decide_eq_true_2 _ Hin). simpl.
    destruct (_transitions m !! from) as [f|] eqn:E.
    + right. split; [right; eauto|].
      by rewrite bool_decide_eq_true_2 by eauto.
    + left. split; [done|]. split; [done|].
      rewrite bool_decide_eq_false_2; [done|]. by intros [? ?].
  - rewrite (bool_decide_eq_false_2 _ Hin). simpl. right. by split; [left|].
Qed.

Lemma addState_states (s : string) (acc : bool) (m : FiniteStateMachine) :
  _states m ⊆ _states (addState s acc m)
  /\ _transitions (addState s acc m) = _transitions m
  /\ _subject (addState s acc m) = _subject m
  /\ _curState (addState s acc m) = _curState m.
Proof.
  unfold addState. destruct (negb (String.eqb s "")); [|done].
  destruct acc; simpl; (split; [apply union_subseteq_r | done]).
Qed.

Lemma rules_on_states_addState (s : string) (acc : bool) (m : FiniteStateMachine) :
  rules_on_states m -> rules_on_states (addState s acc m).
Proof.
  unfold rules_on_states. intros H.
  destruct (addState_states s acc m) as (Hs & -> & _). set_solver.
Qed.

Lemma rules_on_states_addTransition (s : string) (f : transFunction)
    (m : FiniteStateMachine) :
  rules_on_states m -> rules_on_states (fst (addTransition s f m)).
Proof.
  unfold rules_on_states. intros H.
  destruct (addTransition_result s f m) as [(Hin & _ & ->) | (_ & ->)]; simpl; [|done].
  rewrite dom_insert_L. apply union_subseteq. split; [|done].
  by apply singleton_subseteq_l.
Qed.

Lemma rules_on_states_run (compile : string -> option transFunction) (cs : list Call)
    (w : World) :
  rules_on_states (machine w) -> rules_on_states (machine (run compile cs w)).
Proof.
  revert w. induction cs as [|c cs IH]; intros w Hw; [done|].
  apply IH. apply call_preserves; try done.
  - apply rules_on_states_addState.
  - apply rules_on_states_addTransition.
  - intros o ->. by destruct o.
Qed.

Lemma has_rule_addTransition (k s : string) (f : transFunction) (m : FiniteStateMachine) :
  is_Some (_transitions m !! k) -> is_Some (_transitions (fst (addTransition s f m)) !! k).
Proof.
  intros H.
  destruct (addTransition_result s f m) as [(_ & _ & ->) | (_ & ->)]; simpl; [|done].
  rewrite lookup_insert_is_Some. destruct (decide (s = k)); auto.
Qed.

Lemma has_rule_run (compile : string -> option transFunction) (k : string)
    (cs : list Call) (w : World) :
  Forall (fun c => c <> CallClear) cs ->
  is_Some (_transitions (machine w) !! k) ->
  is_Some (_transitions (machine (run compile cs w)) !! k).
Proof.
  revert w. induction cs as [|c cs IH]; intros w Hcs Hw; [done|].
  inversion Hcs as [|? ? Hc Hcs']; subst.
  apply IH; [done|].
  apply (call_preserves compile (fun m => is_Some (_transitions m !! k))); try done.
  - intros s acc m. by destruct (addState_states s acc m) as (_ & -> & _).
  - intros s f m. apply has_rule_addTransition.
  - intros o ->. by destruct o.
Qed.

(** C5.  [addTransition] returns false exactly when [from] is not a known
    state or already has a rule, and then leaves the machine as it was;
    otherwise it returns true and registers the rule.  Once it has returned
    true for a name it returns false for that name for as long as the
    machine is not cleared ([clear] empties the state set, so a name added
    again afterwards is a new state), and after any sequence of calls on a
    new machine [numTransitions] is at most [numStates]. *)
Theorem addTransition_contract (compile : string -> option transFunction)
    (from : string) (to : transFunction) (m : FiniteStateMachine) :
  (snd (addTransition from to m) = false
     <-> (from ∉ _states m \/ is_Some (_transitions m !! from)))
  /\ (snd (addTransition from to m) = false -> fst (addTransition from to m) = m)
  /\ (snd (addTransition from to m) = true ->
        fst (addTransition from to m)
          = set_transitions (<[from := to]> (_transitions m)) m
        /\ _transitions (fst (addTransition from to m)) !! from = Some to)
  /\ (forall (cs : list Call) (h : Heap) (l : list Delivery) (to' : transFunction),
        snd (addTransition from to m) = true ->
        Forall (fun c => c <> CallClear) cs ->
        snd (addTransition from to'
               (machine (run compile cs
                  {| machine := fst (addTransition from to m); heap := h; log := l |})))
          = false)
  /\ (forall (cs : list Call) (h : Heap),
        numTransitions (machine (run compile cs (new_World h)))
          <= numStates (machine (run compile cs (new_World h)))).
Proof.
  split; [|split; [|split; [|split]]].
  - destruct (addTransition_result from to m) as [(Hin & Hno & ->) | (H & ->)]; simpl.
    + split; [done|]. intros [?|[? ?]]; [done | congruence].
    + done.
  - destruct (addTransition_result from to m) as [(_ & _ & ->) | (_ & ->)]; by simpl.
  - destruct (addTransition_result from to m) as [(_ & _ & ->) | (_ & ->)]; simpl; [|done].
    intros _. split; [done|]. apply lookup_insert_eq.
  - intros cs h l to' Hok Hcs.
    set (w := {| machine := fst (addTransition from to m); heap := h; log := l |}).
    assert (is_Some (_transitions (machine (run compile cs w)) !! from)) as Hsome.
    { apply has_rule_run; [done|]. subst w; simpl.
      destruct (addTransition_result from to m) as [(_ & _ & E) | (_ & E)];
        rewrite E in *; simpl in *; [|done].
      rewrite lookup_insert_eq. eauto. }
    destruct (addTransition_result from to' (machine (run compile cs w)))
      as [(_ & Hno & _) | (_ & ->)]; [|done].
    rewrite Hno in Hsome. by destruct Hsome.
  - intros cs h. unfold numTransitions, numStates.
    rewrite <- size_dom. apply subseteq_size.
    apply rules_on_states_run. unfold rules_on_states. simpl. set_solver.
Qed.

(** ** clear and the notification channel *)

Lemma next_misses (o : Observer) (input : JsVal) (st : option string)
    (m : FiniteStateMachine) :
  o ∉ _subject m ->
  filter (fun d => dl_observer d = o) (snd (fst (next input st m))) = [].
Proof.
  intros Ho. unfold next. cbv zeta.
  destruct (_transitions _ !! _); simpl; [|done].
  apply length_zero_iff_nil. rewrite count_deliveries.
  replace (_subject (apply_override st m)) with (_subject m)
    by (symmetry; apply apply_override_frame).
  apply length_zero_iff_nil.
  induction (_subject m) as [|x l IH]; [done|].
  apply not_elem_of_cons in Ho as [Hx Hl].
  rewrite filter_cons. destruct (decide (x = o)); [congruence | by apply IH].
Qed.

Lemma call_unsubscribed (compile : string -> option transFunction) (o : Observer)
    (c : Call) (w : World) :
  c <> CallAddSubscriber (Some o) ->
  o ∉ _subject (machine w) ->
(o ∉ _subject (machine (call compile c w)))
  /\ filter (fun d => dl_observer d = o) (log (call compile c w))
     = filter (fun d => dl_observer d = o) (log w).
Proof.
  intros Hc Ho. split.
  - apply (call_preserves compile (fun m => o ∉ _subject m)); try done.
    + intros s acc m. by destruct (addState_states s acc m) as (_ & _ & -> & _).
    + intros s f m.
      by destruct (addTransition_result s f m) as [(_ & _ & ->) | (_ & ->)].
    + intros _. simpl. apply not_elem_of_nil.
    + intros [o'|] ->; simpl; [|done].
      rewrite elem_of_app, list_elem_of_singleton. intros [?| ->]; [done|]. by apply Hc.
  - destruct c as [s acc|s f|o'|input st|d|]; simpl; try done.
    + pose proof (next_misses o input st (machine w) Ho) as Hn.
      destruct (next input st (machine w)) as [[m' sent] r]. simpl in *.
      by rewrite filter_app, Hn, app_nil_r.
    + by destruct (fromJson compile d (machine w) (heap w)) as [[m' h'] r].
Qed.

Lemma run_unsubscribed (compile : string -> option transFunction) (o : Observer)
    (cs : list Call) (w : World) :
  Forall (fun c => c <> CallAddSubscriber (Some o)) cs ->
  o ∉ _subject (machine w) ->
  filter (fun d => dl_observer d = o) (log (run compile cs w))
  = filter (fun d => dl_observer d = o) (log w).
Proof.
  revert w. induction cs as [|c cs IH]; intros w Hcs Ho; [done|].
  inversion Hcs as [|? ? Hc Hcs']; subst.
  destruct (call_unsubscribed compile o c w Hc Ho) as [Ho' Hlog].
  simpl. rewrite <- Hlog. by apply IH.
Qed.

(** C9.  After [clear] the machine has no states and no rules, is not in an
    acceptance state, holds no alphabet and no initial data, is in the
    NO_STATE state and keeps its name; and whatever is called afterwards, an
    observer receives nothing more unless it is passed to [addSubscriber]
    again. *)
Theorem clear_resets (compile : string -> option transFunction)
    (m : FiniteStateMachine) :
  numStates (clear m) = 0
  /\ numTransitions (clear m) = 0
  /\ isAcceptance (clear m) = Normal false
  /\ _alphabet (clear m) = JNull
  /\ _initialData (clear m) = JNull
  /\ (forall h, initialData (clear m) h = (h, Normal JNull))
  /\ currentState (clear m) = NO_STATE
  /\ name (clear m) = name m
  /\ (forall (o : Observer) (cs : list Call) (h : Heap) (l : list Delivery),
        Forall (fun c => c <> CallAddSubscriber (Some o)) cs ->
        filter (fun d => dl_observer d = o)
               (log (run compile cs {| machine := clear m; heap := h; log := l |}))
        = filter (fun d => dl_observer d = o) l).
Proof.
  repeat split; try done.
  intros o cs h l Hcs.
  rewrite run_unsubscribed; [done | done |]. simpl. apply not_elem_of_nil.
Qed.

(** ** The alphabet getter *)

(** C8 (as the code behaves).  On a machine that holds no alphabet, newly
    constructed or cleared, reading [alphabet] throws a TypeError instead of
    returning null: the getter calls [slice] on null. *)
Theorem alphabet_throws_without_alphabet (h : Heap) (m : FiniteStateMachine) :
  alphabet new_FiniteStateMachine h = (h, Throw TypeError)
  /\ alphabet (clear m) h = (h, Throw TypeError).
Proof. by split. Qed.

(** ** The loader, case by case *)

Lemma is_array_slice (h : Heap) (v : JsVal) :
  is_array h v = true ->
  exists a es, v = JRef a /\ h !! a = Some (CArray es)
    /\ slice h v = (h ++ [CArray es], Normal (JRef (length h))).
Proof.
  destruct v as [| | | | | |a]; simpl; try done.
  destruct (h !! a) as [[ps|es]|] eqn:E; try done.
  intros _. by exists a, es.
Qed.

Section LoaderCases.

Variable compile : string -> option transFunction.

Lemma load_states_frame (l : list StateDescr) (m : FiniteStateMachine) :
  let m' := fst (load_states compile l m) in
  name m' = name m /\ _curState m' = _curState m
  /\ _initialState m' = _initialState m /\ _initialData m' = _initialData m
  /\ _alphabet m' = _alphabet m /\ _subject m' = _subject m.
Proof.
  revert m. induction l as [|sd l IH]; intros m; simpl; [done|].
  destruct (sd_name sd) as [s|], (sd_isAcceptance sd) as [acc|],
    (sd_transition sd) as [body|]; simpl; try done.
  destruct (compile body) as [f|]; simpl; [|done].
  specialize (IH (fst (addTransition s f (addState s acc m)))).
  simpl in IH. destruct IH as (-> & -> & -> & -> & -> & ->).
  destruct (addTransition_result s f (addState s acc m)) as [(_ & _ & ->) | (_ & ->)];
    simpl; unfold addState; destruct (negb (String.eqb s "")), acc; done.
Qed.

Lemma load_states_grows (l : list StateDescr) (m : FiniteStateMachine) :
  let m' := fst (load_states compile l m) in
  _states m ⊆ _states m'
  /\ forall k, is_Some (_transitions m !! k) -> is_Some (_transitions m' !! k).
Proof.
  revert m. induction l as [|sd l IH]; intros m; simpl; [done|].
  destruct (sd_name sd) as [s|], (sd_isAcceptance sd) as [acc|],
    (sd_transition sd) as [body|]; simpl; try done.
  destruct (compile body) as [f|]; simpl; [|done].
  specialize (IH (fst (addTransition s f (addState s acc m)))).
  simpl in IH. destruct IH as [IHs IHt].
  destruct (addState_states s acc m) as (Hs & Ht & _).
  split.
  - etrans; [exact Hs|]. etrans; [|exact IHs].
    by destruct (addTransition_result s f (addState s acc m))
      as [(_ & _ & ->) | (_ & ->)].
  - intros k Hk. apply IHt, has_rule_addTransition. by rewrite Ht.
Qed.

Lemma addState_addTransition_registers (s : string) (acc : bool) (f : transFunction)
    (m : FiniteStateMachine) :
  s <> "" ->
  let m' := fst (addTransition s f (addState s acc m)) in
  s ∈ _states m' /\ is_Some (_transitions m' !! s).
Proof.
  intros Hs.
  assert (s ∈ _states (addState s acc m)) as Hin.
  { unfold addState. apply String.eqb_neq in Hs. rewrite Hs. simpl.
    destruct acc; simpl; apply elem_of_union_l, elem_of_singleton; done. }
  simpl.
  destruct (addTransition_result s f (addState s acc m))
    as [(_ & _ & ->) | ([Hno|Hsome] & ->)]; simpl; try done.
  split; [done|]. rewrite lookup_insert_eq. eauto.
Qed.

(** When the loop runs to its end every descriptor is registered. *)
Lemma load_states_complete (l : list StateDescr) (m m' : FiniteStateMachine) :
  load_states compile l m = (m', None) -> Forall (registered m') l.
Proof.
  revert m. induction l as [|sd l IH]; intros m; simpl; [by constructor|].
  destruct (sd_name sd) as [s|] eqn:En, (sd_isAcceptance sd) as [acc|],
    (sd_transition sd) as [body|]; simpl; try done.
  destruct (compile body) as [f|]; simpl; [|done].
  intros Hl. constructor; [|by eapply IH].
  intros s' Hs' Hne. rewrite En in Hs'. injection Hs' as <-.
  destruct (addState_addTransition_registers s acc f m Hne) as [H1 H2].
  pose proof (load_states_grows l (fst (addTransition s f (addState s acc m)))) as Hg.
  rewrite Hl in Hg. simpl in Hg. destruct Hg as [Hgs Hgt].
  split; [by apply Hgs | by apply Hgt].
Qed.

(** When the loop reports a descriptor, the descriptors before it have
    been registered and stay so. *)
Lemma load_states_stop (l : list StateDescr) (m m' : FiniteStateMachine)
    (r : IDecisionTreeAction) :
  load_states compile l m = (m', Some (Normal r)) ->
  exists pre sd post,
    l = pre ++ sd :: post
    /\ r = failure INVALID_DATA (Some (NodeState sd))
    /\ ~ (is_Some (sd_name sd) /\ is_Some (sd_isAcceptance sd)
          /\ is_Some (sd_transition sd))
    /\ load_states compile pre m = (m', None).
Proof.
  revert m. induction l as [|sd l IH]; intros m; simpl; [done|].
  destruct (sd_name sd) as [s|] eqn:En, (sd_isAcceptance sd) as [acc|] eqn:Ea,
    (sd_transition sd) as [body|] eqn:Et; simpl;
    try (intros [= <- <-]; exists [], sd, l; repeat split; try done;
         rewrite ?En, ?Ea, ?Et; intros (? & ? & ?);
         repeat match goal with H : is_Some None |- _ => destruct H; done end).
  destruct (compile body) as [f|] eqn:Ec; simpl; [|done].
  intros Hl. destruct (IH _ Hl) as (pre & sd' & post & -> & -> & Hbad & Hpre).
  exists (sd :: pre), sd', post. repeat split; try done.
  simpl. by rewrite En, Ea, Et, Ec.
Qed.

Lemma load_states_total (l : list StateDescr) (m : FiniteStateMachine) :
  Forall (well_formed compile) l -> snd (load_states compile l m) = None.
Proof.
  revert m. induction l as [|sd l IH]; intros m Hl; simpl; [done|].
  inversion Hl as [|? ? ([s Hs] & [acc Ha] & body & Hb & [f Hf]) Hl']; subst.
  rewrite Hs, Ha, Hb, Hf. by apply IH.
Qed.

Lemma fromJson_spec (d : option Document) (m : FiniteStateMachine) (h : Heap) :
  fromJson_outcome compile m h d (fromJson compile d m h).
Proof.
  unfold fromJson. destruct d as [doc|]; [|constructor].
  destruct (doc_name doc) as [dname|] eqn:En; [|constructor; auto].
  destruct (doc_alphabet doc) as [alpha|] eqn:Ea; [|constructor; auto].
  destruct (doc_states doc) as [states|] eqn:Es; [|constructor; auto].
  destruct (is_array h alpha) eqn:Harr; [|by econstructor].
  destruct (is_array_slice h alpha Harr) as (a & es & -> & Hcell & ->).
  destruct states as [l|v]; [|by econstructor].
  destruct (length l =? 0)%nat eqn:Hlen.
  { apply Nat.eqb_eq, length_zero_iff_nil in Hlen as ->. by econstructor. }
  assert (l <> []) as Hl by (intros ->; done).
  change (set_curState _ _)
    with (loader_start dname (doc_initialState doc) (JRef (length h)) m).
  destruct (load_states compile l _) as [m5 [stop|]] eqn:Eload.
  { by econstructor. }
  destruct (doc_initialData doc) as [tmp|] eqn:Ed.
  - destruct (is_object _ tmp) eqn:Hobj.
    + destruct (JSON_clone _ tmp) as [h2 [v|e]] eqn:Hc;
        (eapply out_loaded; try done; rewrite Ed; by constructor).
    + eapply out_loaded; try done. rewrite Ed. by constructor.
  - eapply out_loaded; try done. rewrite Ed. by constructor.
Qed.

End LoaderCases.

(** ** Copies made through JSON *)

Lemma structure_unfold (fuel : nat) (h : Heap) (v : JsVal) :
  structure fuel h v =
  match v with
  | JUndefined => Some TUndefined
  | JNull => Some TNull
  | JBool b => Some (TBool b)
  | JNum n => Some (TNum n)
  | JNonFinite k => Some (TNonFinite k)
  | JStr s => Some (TStr s)
  | JRef a =>
      match fuel with
      | O => None
      | S n =>
          match h !! a with
          | Some (CArray es) => TArray <$> mapM (structure n h) es
          | Some (CObject ps) =>
              TObject <$> mapM (fun kv => pair (fst kv) <$> structure n h (snd kv)) ps
          | None => None
          end
      end
  end.
Proof. by destruct fuel. Qed.

(** More fuel and more cells do not change an unfolding that succeeded. *)
Lemma structure_mono (n : nat) (h : Heap) (v : JsVal) (t : Tree) :
  structure n h v = Some t ->
  forall n' h', n <= n' -> h `prefix_of` h' -> structure n' h' v = Some t.
Proof.
  revert v t. induction n as [|n IH]; intros v t Hs n' h' Hn Hh;
    rewrite structure_unfold in Hs; rewrite structure_unfold;
    destruct v as [| | | | | |a]; try done.
  destruct n' as [|n']; [lia|].
  destruct (h !! a) as [cell|] eqn:Ha; [|done].
  rewrite (prefix_lookup_Some _ _ _ _ Ha Hh).
  destruct cell as [ps|es].
  - destruct (mapM _ ps) as [ts|] eqn:Hm; [|done].
    apply mapM_Some in Hm.
    assert (mapM (fun kv => pair (fst kv) <$> structure n' h' (snd kv)) ps = Some ts)
      as ->; [|done].
    apply mapM_Some. eapply Forall2_impl; [exact Hm|].
    intros kv kt Hk. simpl in *.
    destruct (structure n h (snd kv)) as [x|] eqn:Hx; [|done].
    rewrite (IH _ _ Hx n' h'); [done | lia | done].
  - destruct (mapM _ es) as [ts|] eqn:Hm; [|done].
    apply mapM_Some in Hm.
    assert (mapM (structure n' h') es = Some ts) as ->; [|done].
    apply mapM_Some. eapply Forall2_impl; [exact Hm|].
    intros x y Hx. apply (IH _ _ Hx); [lia | done].
Qed.


Lemma to_json_plain (t : Tree) : plain t = true -> to_json t = Some t.
Proof.
  induction t as [| | | | | |l IH|l IH] using Tree_nested_ind; simpl; try done.
  - intros Hp. do 2 f_equal.
    induction l as [|x l IHl]; [done|]. simpl in *.
    apply andb_true_iff in Hp as [Hx Hl]. inversion IH as [|? ? IHx IH']; subst.
    by rewrite (IHx Hx), (IHl IH' Hl).
  - intros Hp. do 2 f_equal.
    induction l as [|[k x] l IHl]; [done|]. simpl in *.
    apply andb_true_iff in Hp as [Hx Hl]. inversion IH as [|? ? IHx IH']; subst.
    simpl in IHx. rewrite (IHx Hx). simpl. f_equal. by apply IHl.
Qed.

Lemma to_json_is_plain (t j : Tree) : to_json t = Some j -> plain j = true.
Proof.
  revert j.
  induction t as [| | | | | |l IH|l IH] using Tree_nested_ind; simpl;
    intros j Hj; try (by injection Hj as <-); try done.
  - injection Hj as <-. simpl.
    induction l as [|x l IHl]; [done|]. simpl.
    inversion IH as [|? ? IHx IH']; subst.
    rewrite (IHl IH'), andb_true_r.
    destruct (to_json x) as [jx|]; [by apply IHx | done].
  - injection Hj as <-. simpl.
    induction l as [|[k x] l IHl]; [done|]. simpl.
    inversion IH as [|? ? IHx IH']; subst. simpl in IHx.
    destruct (to_json x) as [jx|]; simpl; [|by apply IHl].
    rewrite (IHx jx) by done. by apply IHl.
Qed.

Lemma val_above_mono (n n' : nat) (v : JsVal) : n <= n' -> val_above n' v -> val_above n v.
Proof. destruct v; simpl; try done. lia. Qed.

Lemma cell_above_mono (n n' : nat) (c : Cell) : n <= n' -> cell_above n' c -> cell_above n c.
Proof.
  intros Hn. destruct c; simpl; intros H; (eapply Forall_impl; [exact H|]);
    intros ?; by apply val_above_mono.
Qed.

Section AllocEach.

Context {A B : Type}.
Variable f : A -> Heap -> Heap * B.
Variable d : A -> nat.
Variable above : nat -> B -> Prop.
Variable R : Heap -> A -> B -> Prop.

Hypothesis above_mono : forall n n' y, n <= n' -> above n' y -> above n y.
Hypothesis R_mono : forall h h' x y, h `prefix_of` h' -> R h x y -> R h' x y.

Lemma alloc_each_allocates (l : list A) :
  Forall (allocates f d above R) l ->
  forall h h' ys, alloc_each f l h = (h', ys) ->
    exists ext, h' = h ++ ext
      /\ Forall (cell_above (length h)) ext
      /\ Forall (above (length h)) ys
      /\ max_list (map d l) <= length ext
      /\ Forall2 (R h') l ys.
Proof.
  induction 1 as [|x l Hx Hl IH]; intros h h' ys; simpl.
  - intros [= <- <-]. exists []. rewrite app_nil_r. repeat split; by constructor.
  - destruct (f x h) as [h1 y] eqn:E1.
    destruct (alloc_each f l h1) as [h2 ys'] eqn:E2.
    intros [= <- <-].
    destruct (Hx _ _ _ E1) as (e1 & -> & Hc1 & Ha1 & Hd1 & HR1).
    destruct (IH _ _ _ E2) as (e2 & -> & Hc2 & Ha2 & Hd2 & HR2).
    exists (e1 ++ e2). rewrite ?length_app in *. rewrite <- app_assoc.
    split; [done|]. split; [|split; [|split]].
    + apply Forall_app. split; [done|].
      eapply Forall_impl; [exact Hc2|]. intros c. apply cell_above_mono. lia.
    + constructor; [done|].
      eapply Forall_impl; [exact Ha2|]. intros y'. apply above_mono. lia.
    + lia.
    + constructor; [|by rewrite <- app_assoc in HR2].
      apply (R_mono (h ++ e1)); [|done]. rewrite app_assoc. by apply prefix_app_r.
Qed.

End AllocEach.

Lemma unfolds_to_mono (h h' : Heap) (x : Tree) (v : JsVal) :
  h `prefix_of` h' -> unfolds_to h x v -> unfolds_to h' x v.
Proof. intros Hh Hu n Hn. by apply (structure_mono n h v x (Hu n Hn)). Qed.

Lemma alloc_allocates (t : Tree) :
  allocates alloc depth val_above unfolds_to t.
Proof.
  induction t as [| | | | | |l IH|l IH] using Tree_nested_ind; intros h h' v; simpl;
    try (intros [= <- <-]; exists []; rewrite app_nil_r;
         repeat split; try done; try constructor;
         intros ? _; by rewrite structure_unfold).
  - destruct (alloc_each alloc l h) as [h1 vs] eqn:E. intros [= <- <-].
    destruct (alloc_each_allocates alloc depth val_above unfolds_to
                val_above_mono unfolds_to_mono l IH _ _ _ E)
      as (ext & -> & Hc & Ha & Hd & HR).
    exists (ext ++ [CArray vs]). rewrite <- app_assoc. split; [done|].
    split; [|split; [|split]].
    + apply Forall_app. split; [done|]. by repeat constructor.
    + simpl. rewrite length_app. lia.
    + rewrite length_app. simpl. lia.
    + intros n Hn. simpl in Hn. destruct n as [|n]; [lia|].
      rewrite structure_unfold.
      rewrite app_assoc, list_lookup_middle by done.
      assert (mapM (structure n ((h ++ ext) ++ [CArray vs])) vs = Some l) as ->; [|done].
      apply mapM_Some. apply le_S_n in Hn.
      assert ((h ++ ext) `prefix_of` ((h ++ ext) ++ [CArray vs])) as Hp
        by by apply prefix_app_r.
      revert Hp. generalize ((h ++ ext) ++ [CArray vs]). intros hf Hp.
      clear -HR Hn Hp. induction HR as [|x v l vs Hx _ IHl]; [constructor|].
      simpl in Hn. constructor; [|apply IHl; lia].
      apply (unfolds_to_mono (h ++ ext)); [done | done | lia].
  - set (g := fun (kv : string * Tree) (h0 : Heap) =>
                let '(k, x) := kv in let '(h', v) := alloc x h0 in (h', (k, v))).
    destruct (alloc_each g l h) as [h1 ps] eqn:E. intros [= <- <-].
    assert (Forall (allocates g (fun kv => let '(_, x) := kv in depth x)
                      (fun n kv => val_above n (snd kv))
                      (fun h0 kv kv' => fst kv = fst kv' /\ unfolds_to h0 (snd kv) (snd kv')))
                   l) as IH'.
    { eapply Forall_impl; [exact IH|]. intros [k x] Hx h0 h0' [k' v'] Hg.
      unfold g in Hg. destruct (alloc x h0) as [h2 v2] eqn:E2.
      injection Hg as <- <- <-.
      destruct (Hx _ _ _ E2) as (ext & -> & ? & ? & ? & ?). by exists ext. }
    destruct (alloc_each_allocates g _ _ _
                (fun n n' kv Hn => val_above_mono n n' (snd kv) Hn)
                (fun h0 h0' kv kv' Hh '(conj Hk Hu) =>
                   conj Hk (unfolds_to_mono h0 h0' _ _ Hh Hu))
                l IH' _ _ _ E)
      as (ext & -> & Hc & Ha & Hd & HR).
    exists (ext ++ [CObject ps]). rewrite <- app_assoc. split; [done|].
    split; [|split; [|split]].
    + apply Forall_app. split; [done|]. by repeat constructor.
    + simpl. rewrite length_app. lia.
    + rewrite length_app. simpl. lia.
    + intros n Hn. simpl in Hn. destruct n as [|n]; [lia|].
      rewrite structure_unfold.
      rewrite app_assoc, list_lookup_middle by done.
      assert (mapM (fun kv => pair (fst kv)
                      <$> structure n ((h ++ ext) ++ [CObject ps]) (snd kv)) ps
              = Some l) as ->; [|done].
      apply mapM_Some. apply le_S_n in Hn.
      assert ((h ++ ext) `prefix_of` ((h ++ ext) ++ [CObject ps])) as Hp
        by by apply prefix_app_r.
      revert Hp. generalize ((h ++ ext) ++ [CObject ps]). intros hf Hp.
      clear -HR Hn Hp. induction HR as [|[k x] [k' v] l ps [Hk Hx] _ IHl]; [constructor|].
      simpl in *. subst k'. constructor; [|apply IHl; lia].
      rewrite (unfolds_to_mono (h ++ ext) _ x v); [done | done | done | lia].
Qed.

Lemma JSON_clone_normal (h h' : Heap) (v r : JsVal) :
  JSON_clone h v = (h', Normal r) ->
  exists t j ext,
    deep h v = Some t /\ to_json t = Some j /\ alloc j h = (h', r)
    /\ h' = h ++ ext /\ Forall (cell_above (length h)) ext
    /\ val_above (length h) r /\ deep h' r = Some j.
Proof.
  unfold JSON_clone. destruct (deep h v) as [t|] eqn:Ht; [|done].
  destruct (to_json t) as [j|] eqn:Hj; [|done].
  destruct (alloc j h) as [h2 r2] eqn:Ha. intros [= <- <-].
  destruct (alloc_allocates j _ _ _ Ha) as (ext & -> & Hc & Hv & Hd & Hu).
  exists t, j, ext. repeat split; try done.
  apply Hu. rewrite length_app. lia.
Qed.

Lemma JSON_clone_plain (h : Heap) (v : JsVal) (j : Tree) :
  deep h v = Some j -> plain j = true ->
  exists ext r,
    JSON_clone h v = (h ++ ext, Normal r)
    /\ Forall (cell_above (length h)) ext
    /\ val_above (length h) r /\ deep (h ++ ext) r = Some j.
Proof.
  intros Hd Hp. unfold JSON_clone. rewrite Hd, (to_json_plain j Hp).
  destruct (alloc j h) as [h2 r2] eqn:Ha.
  destruct (alloc_allocates j _ _ _ Ha) as (ext & -> & Hc & Hv & Hdp & Hu).
  exists ext, r2. repeat split; try done.
  apply Hu. rewrite length_app. lia.
Qed.

(** Reading [initialData] when the machine holds a JSON value: the read
    returns a copy made of new cells only, which unfolds to the same tree. *)
Lemma initialData_read (m : FiniteStateMachine) (h : Heap) (j : Tree) :
  truthy (_initialData m) = true ->
  deep h (_initialData m) = Some j -> plain j = true ->
  exists ext r,
    initialData m h = (h ++ ext, Normal r)
    /\ Forall (cell_above (length h)) ext
    /\ val_above (length h) r /\ deep (h ++ ext) r = Some j.
Proof.
  intros Ht Hd Hp. unfold initialData. rewrite Ht. by apply JSON_clone_plain.
Qed.


Lemma is_object_deep (h : Heap) (v : JsVal) (t : Tree) :
  is_object h v = true -> deep h v = Some t -> exists ps, t = TObject ps.
Proof.
  unfold deep. destruct v as [| | | | | |a]; simpl; try done.
  destruct (h !! a) as [[ps|es]|]; try done.
  intros _. destruct (mapM _ ps) as [ts|]; [|done]. intros [= <-]. by eexists.
Qed.

Lemma JSON_clone_object (h h' : Heap) (v r : JsVal) :
  is_object h v = true -> JSON_clone h v = (h', Normal r) ->
  exists j, truthy r = true /\ deep h' r = Some j /\ plain j = true
    /\ h `prefix_of` h'
    /\ forall t, deep h v = Some t -> plain t = true -> j = t.
Proof.
  intros Ho Hc.
  destruct (JSON_clone_normal _ _ _ _ Hc) as (t & j & ext & Ht & Hj & Ha & -> & _ & _ & Hd).
  destruct (is_object_deep _ _ _ Ho Ht) as [ps ->].
  exists j. split; [|split; [done|split; [by eapply to_json_is_plain|split]]].
  - simpl in Hj. injection Hj as <-. simpl in Ha.
    destruct (alloc_each _ _ h) as [h1 ps']. by injection Ha as _ <-.
  - by apply prefix_app_r.
  - intros t' Ht' Hp. rewrite Ht in Ht'. injection Ht' as <-.
    rewrite (to_json_plain _ Hp) in Hj. by injection Hj.
Qed.


(** ** fromJson: what a load sets, and what a failed load leaves *)

Section LoaderProperties.

Variable compile : string -> option transFunction.

Lemma loader_start_frame (dname : string) (init : option string) (copy : JsVal)
    (m : FiniteStateMachine) (l : list StateDescr) :
  let m5 := fst (load_states compile l (loader_start dname init copy m)) in
  name m5 = dname /\ _curState m5 = default NO_STATE init
  /\ _initialState m5 = default NO_STATE init /\ _initialData m5 = _initialData m
  /\ _alphabet m5 = copy /\ _subject m5 = _subject m.
Proof.
  pose proof (load_states_frame compile l (loader_start dname init copy m)) as H.
  simpl in *. by destruct H as (-> & -> & -> & -> & -> & ->).
Qed.

Lemma fromJson_success (d : option Document) (m m' : FiniteStateMachine)
    (h h' : Heap) (r : IDecisionTreeAction) :
  fromJson compile d m h = (m', h', Normal r) -> success r = true ->
  exists doc dname a es l m5,
    d = Some doc /\ doc_name doc = Some dname
    /\ doc_alphabet doc = Some (JRef a) /\ h !! a = Some (CArray es)
    /\ doc_states doc = Some (StatesArray l) /\ l <> []
    /\ load_states compile l
         (loader_start dname (doc_initialState doc) (JRef (length h)) m) = (m5, None)
    /\ initialData_outcome m5 (h ++ [CArray es]) (doc_initialData doc)
         (m', h', Normal r).
Proof.
  intros Hf Hr. pose proof (fromJson_spec compile d m h) as Hspec.
  rewrite Hf in Hspec.
  inversion Hspec as [ | | | | | doc dname a es l m5 stop Hn Ha Hc Hs Hl
                     | doc dname a es l m5 m2 h2 r2 Hn Ha Hc Hs Hne Hl Hi ];
    subst; try done.
  - destruct (load_states_stop compile _ _ _ _ Hl) as (? & ? & ? & _ & -> & _).
    done.
  - by exists doc, dname, a, es, l, m5.
Qed.

(** What a successful load leaves in the machine and the store. *)
Lemma fromJson_success_fields (d : option Document) (m m' : FiniteStateMachine)
    (h h' : Heap) (r : IDecisionTreeAction) :
  fromJson compile d m h = (m', h', Normal r) -> success r = true ->
  exists doc dname a es,
    d = Some doc /\ doc_name doc = Some dname
    /\ doc_alphabet doc = Some (JRef a) /\ h !! a = Some (CArray es)
    /\ name m' = dname
    /\ initialState m' = default NO_STATE (doc_initialState doc)
    /\ currentState m' = initialState m'
    /\ _alphabet m' = JRef (length h)
    /\ (h ++ [CArray es]) `prefix_of` h'
    /\ (doc_initialData doc = None -> _initialData m' = _initialData m)
    /\ (forall tmp, doc_initialData doc = Some tmp ->
          is_object (h ++ [CArray es]) tmp = true
          /\ JSON_clone (h ++ [CArray es]) tmp = (h', Normal (_initialData m'))).
Proof.
  intros Hf Hr.
  destruct (fromJson_success _ _ _ _ _ _ Hf Hr)
    as (doc & dname & a & es & l & m5 & -> & Hn & Ha & Hc & Hs & Hne & Hl & Hi).
  pose proof (loader_start_frame dname (doc_initialState doc) (JRef (length h)) m l)
    as Hfr.
  rewrite Hl in Hfr. simpl in Hfr.
  destruct Hfr as (Hname & Hcur & Hinit & Hdata & Halpha & _).
  exists doc, dname, a, es. do 4 (split; [done|]).
  unfold initialState, currentState.
  clear Hf.
  inversion Hi as [ Hd | tmp Hobj Hd | tmp h2 e Hobj Hclone Hd
                  | tmp h2 v Hobj Hclone Hd ]; subst; simpl in *; try done.
  - rewrite Hcur, Hinit. repeat split; try done.
  - rewrite Hcur, Hinit. do 4 (split; [done|]).
    split; [|split].
    + destruct (JSON_clone_normal _ _ _ _ Hclone) as (_ & _ & ext & _ & _ & _ & -> & _).
      by apply prefix_app_r.
    + intros Hnone. congruence.
    + intros tmp' Ht. by injection Ht as <-.
Qed.

(** C6 (amended).  A fromJson call that gets past the checks of [alphabet]
    and [states], that is, one that succeeds, that fails on a state
    descriptor or on initialData (a failure reporting a node), or that
    throws, has replaced the name, the initial state (NO_STATE when the
    document has none), the current state and the alphabet (a copy of the
    document's array) with the document's.  The initial data is replaced,
    by a copy of the document's, only when the call succeeds and the
    document carries one; otherwise it is left as the machine held it.  A
    call that fails before that (a failure reporting no node) has changed
    nothing but, at most, the alphabet. *)
Theorem fromJson_overwrites (d : option Document) (m m' : FiniteStateMachine)
    (h h' : Heap) (c : Completion IDecisionTreeAction) :
  fromJson compile d m h = (m', h', c) ->
  (~ left_early c ->
     exists doc dname a es,
       d = Some doc /\ doc_name doc = Some dname
       /\ doc_alphabet doc = Some (JRef a) /\ h !! a = Some (CArray es)
       /\ name m' = dname
       /\ initialState m' = default NO_STATE (doc_initialState doc)
       /\ currentState m' = initialState m'
       /\ _alphabet m' = JRef (length h)
       /\ h' !! length h = Some (CArray es)
       /\ (c <> Normal valid \/ doc_initialData doc = None ->
             _initialData m' = _initialData m)
       /\ (c = Normal valid -> forall tmp, doc_initialData doc = Some tmp ->
             JSON_clone (h ++ [CArray es]) tmp = (h', Normal (_initialData m'))))
  /\ (left_early c ->
        (m' = m /\ h' = h)
        \/ exists doc a es,
             d = Some doc /\ doc_alphabet doc = Some (JRef a)
             /\ h !! a = Some (CArray es)
             /\ m' = set_alphabet (JRef (length h)) m /\ h' = h ++ [CArray es]).
Proof.
  intros Hf. pose proof (fromJson_spec compile d m h) as Hspec.
  rewrite Hf in Hspec. clear Hf.
  assert (forall a, left_early (Normal (failure a None))) as Hearly.
  { intros a. by exists (failure a None). }
  inversion Hspec as [ | | | | | doc dname a es l m5 stop Hn Ha Hc Hs Hl
                     | doc dname a es l m5 m2 h2 r2 Hn Ha Hc Hs Hne Hl Hi ]; subst.
  - split; [intros Hnot; contradiction Hnot; apply Hearly | by left].
  - split; [intros Hnot; contradiction Hnot; apply Hearly | by left].
  - split; [intros Hnot; contradiction Hnot; apply Hearly | by left].
  - split; [intros Hnot; contradiction Hnot; apply Hearly |].
    intros _. right. by exists doc, a, es.
  - split; [intros Hnot; contradiction Hnot; apply Hearly |].
    intros _. right. by exists doc, a, es.
  - pose proof (loader_start_frame dname (doc_initialState doc) (JRef (length h)) m l)
      as Hfr.
    rewrite Hl in Hfr. simpl in Hfr.
    destruct Hfr as (Hname & Hcur & Hinit & Hdata & Halpha & _).
    assert (forall r, c = Normal r -> is_Some (node r) /\ r <> valid) as Hstop.
    { intros r ->.
      destruct (load_states_stop compile _ _ _ _ Hl) as (? & ? & ? & _ & -> & _).
      split; [by eexists | done]. }
    split.
    + intros _. exists doc, dname, a, es.
      unfold initialState, currentState. rewrite Hcur, Hinit.
      do 8 (split; [done|]). split; [by apply list_lookup_middle|].
      split; [done|]. intros ->. by destruct (Hstop valid eq_refl).
    + intros (r & -> & _ & Hnode).
      destruct (Hstop r eq_refl) as [[? Hsome] _]. congruence.
  - pose proof (loader_start_frame dname (doc_initialState doc) (JRef (length h)) m l)
      as Hfr.
    rewrite Hl in Hfr. simpl in Hfr.
    destruct Hfr as (Hname & Hcur & Hinit & Hdata & Halpha & _).
    inversion Hi as [ Hd | tmp Hobj Hd | tmp h3 e Hobj Hclone Hd
                    | tmp h3 v Hobj Hclone Hd ]; subst.
    + split; [|by intros (r & [= <-] & ? & _)]. intros _. eexists doc, _, a, es.
      unfold initialState, currentState. rewrite Hcur, Hinit.
      do 8 (split; [done|]). split; [by apply list_lookup_middle|].
      split; [done|]. intros _ tmp Ht. congruence.
    + split; [|by intros (r & [= <-] & _ & ?)]. intros _. eexists doc, _, a, es.
      unfold initialState, currentState. rewrite Hcur, Hinit.
      do 8 (split; [done|]). split; [by apply list_lookup_middle|].
      split; [done|]. done.
    + split; [|by intros (r & [=] & _)]. intros _. eexists doc, _, a, es.
      unfold initialState, currentState. rewrite Hcur, Hinit.
      do 8 (split; [done|]). split.
      { unfold JSON_clone in Hclone.
        destruct (deep _ tmp) as [t|];
          [|injection Hclone as <- _; by apply list_lookup_middle].
        destruct (to_json t) as [j|];
          [|injection Hclone as <- _; by apply list_lookup_middle].
        by destruct (alloc j _). }
      split; [done|]. done.
    + split; [|by intros (r & [= <-] & ? & _)]. intros _. eexists doc, _, a, es.
      unfold initialState, currentState. simpl. rewrite Hcur, Hinit.
      do 8 (split; [done|]). split.
      { destruct (JSON_clone_normal _ _ _ _ Hclone) as (_ & _ & ext & _ & _ & _ & -> & _).
        rewrite <- app_assoc. by apply list_lookup_middle. }
      split; [intros [?|?]; [done | congruence]|].
      intros _ tmp' Ht. rewrite <- Hd in Ht. by injection Ht as <-.
Qed.

(** C7 (amended).  A fromJson call that reports a failure without a node
    (NO_DATA, MISSING_PROPS, INVALID_DATA or NO_STATE for the shape of
    [alphabet] or [states]) has changed nothing in the machine but, at
    most, the alphabet.  One that reports a state descriptor has
    registered every descriptor before it, and one that reports the
    initialData value has registered every descriptor: these states and
    rules remain in place. *)
Theorem fromJson_failure_effects (d : option Document) (m m' : FiniteStateMachine)
    (h h' : Heap) (r : IDecisionTreeAction) :
  fromJson compile d m h = (m', h', Normal r) -> success r = false ->
  (node r = None ->
     (m' = m /\ h' = h) \/ exists copy, m' = set_alphabet copy m)
  /\ (forall sd, node r = Some (NodeState sd) ->
        exists doc pre post,
          d = Some doc /\ doc_states doc = Some (StatesArray (pre ++ sd :: post))
          /\ Forall (registered m') pre)
  /\ (forall v, node r = Some (NodeValue v) ->
        exists doc l,
          d = Some doc /\ doc_states doc = Some (StatesArray l)
          /\ doc_initialData doc = Some v /\ Forall (registered m') l).
Proof.
  intros Hf Hr. pose proof (fromJson_spec compile d m h) as Hspec.
  rewrite Hf in Hspec.
  inversion Hspec as [ | | | | | doc dname a es l m5 stop Hn Ha Hc Hs Hl
                     | doc dname a es l m5 m2 h2 r2 Hn Ha Hc Hs Hne Hl Hi ];
    subst; simpl; try (repeat split; try done; eauto; fail).
  - destruct (load_states_stop compile _ _ _ _ Hl)
      as (pre & sd & post & -> & -> & _ & Hpre).
    simpl. repeat split; try done.
    intros sd' [= <-]. exists doc, pre, post. repeat split; try done.
    by eapply load_states_complete.
  - inversion Hi as [ Hd | tmp Hobj Hd | tmp h3 e Hobj Hclone Hd
                    | tmp h3 v Hobj Hclone Hd ]; subst; simpl in *; try done.
    repeat split; try done.
    intros v [= <-]. exists doc, l. repeat split; try done.
    by eapply load_states_complete.
Qed.


End LoaderProperties.

(** ** The current state along a sequence of calls *)

Section ClosedRuns.

Variable compile : string -> option transFunction.





End ClosedRuns.

(** * Further properties *)

Local Set Warnings "-clear-no-such-hyp".

(** ** States, marks and rules *)

(** X1.  [addState] counts a name once: the number of states grows by one
    for a non-empty name that is not yet a state, and is unchanged for the
    empty name and for a name that is already a state. *)
Theorem addState_counts_once (s : string) (acc : bool) (m : FiniteStateMachine) :
  numStates (addState s acc m)
  = if decide (s = "" \/ s ∈ _states m) then numStates m else S (numStates m).
Proof.
  unfold numStates, addState.
  destruct (String.eqb_spec s "") as [Heq|Hne]; cbn [negb].
  { destruct (decide (s = "" \/ s ∈ _states m)) as [_|Hn]; [done|].
    contradiction Hn. by left. }
  cbv zeta.
  match goal with
  | |- size (_states ?m1) = _ => assert (_states m1 = {[s]} ∪ _states m) as ->
  end.
  { by destruct acc. }
  destruct (decide (s = "" \/ s ∈ _states m)) as [[?|Hin]|Hnin]; [done| |].
  - f_equal. apply subseteq_union_1_L. by apply singleton_subseteq_l.
  - rewrite size_union by (apply disjoint_singleton_l; intros ?; apply Hnin; by right).
    by rewrite size_singleton.
Qed.

Lemma addState_marks (s : string) (acc : bool) (m : FiniteStateMachine) :
  acceptanceMarks m ⊆ acceptanceMarks (addState s acc m)
  /\ acceptanceMarks (addState s acc m) ⊆ acceptanceMarks m ∪ {[s]}
  /\ (forall k, k ∈ acceptanceMarks (addState s acc m) -> k ∉ acceptanceMarks m ->
        k = s /\ s <> "" /\ acc = true).
Proof.
  unfold acceptanceMarks, addState.
  destruct (String.eqb_spec s "") as [->|Hne]; simpl.
  { split; [done|]. split; [apply union_subseteq_l|]. intros k H1 H2. done. }
  destruct acc; simpl.
  - destruct (String.eqb s "__proto__"); simpl.
    { split; [done|]. split; [apply union_subseteq_l|]. intros k H1 H2. done. }
    split; [apply union_subseteq_r|]. split; [by rewrite (comm_L (∪))|].
    intros k Hk Hn. apply elem_of_union in Hk as [Hk|Hk]; [|done].
    apply elem_of_singleton in Hk. done.
  - split; [done|]. split; [apply union_subseteq_l|]. intros k H1 H2. done.
Qed.

Lemma addTransition_frame (s : string) (f : transFunction) (m : FiniteStateMachine) :
  _states (fst (addTransition s f m)) = _states m
  /\ _acceptanceStates (fst (addTransition s f m)) = _acceptanceStates m
  /\ _curState (fst (addTransition s f m)) = _curState m.
Proof. by destruct (addTransition_result s f m) as [(_ & _ & ->) | (_ & ->)]. Qed.

Section RunInvariants.

Variable compile : string -> option transFunction.

(** X2.  The empty string is never a state: after any sequence of calls on
    a new machine the state set does not contain it. *)
Theorem empty_name_never_a_state (cs : list Call) (h : Heap) :
  "" ∉ _states (machine (run compile cs (new_World h))).
Proof.
  assert (forall cs w, "" ∉ _states (machine w) ->
            "" ∉ _states (machine (run compile cs w))) as Hrun.
  { intros cs0. induction cs0 as [|c cs0 IH]; intros w Hw; [done|].
    apply IH. apply (call_preserves compile (fun m => "" ∉ _states m)); try done.
    - intros s acc m Hm. unfold addState.
      destruct (String.eqb_spec s "") as [->|Hne]; simpl; [done|].
      destruct acc; simpl; (intros [Hs|?]%elem_of_union; [|done]);
        apply elem_of_singleton in Hs; done.
    - intros s f m. by destruct (addTransition_frame s f m) as (-> & _).
    - intros o ->. by destruct o. }
  apply Hrun. simpl. apply not_elem_of_empty.
Qed.

(** X3.  Only states carry an acceptance mark: after any sequence of calls
    on a new machine every marked name is in the state set. *)
Theorem marks_are_states (cs : list Call) (h : Heap) :
  acceptanceMarks (machine (run compile cs (new_World h)))
  ⊆ _states (machine (run compile cs (new_World h))).
Proof.
  assert (forall cs w, acceptanceMarks (machine w) ⊆ _states (machine w) ->
            acceptanceMarks (machine (run compile cs w))
            ⊆ _states (machine (run compile cs w))) as Hrun.
  { intros cs0. induction cs0 as [|c cs0 IH]; intros w Hw; [done|].
    apply IH.
    apply (call_preserves compile (fun m => acceptanceMarks m ⊆ _states m)); try done.
    - intros s acc m Hm.
      destruct (addState_marks s acc m) as (_ & Hup & Hnew).
      destruct (addState_states s acc m) as (Hs & _).
      intros k Hk. destruct (decide (k ∈ acceptanceMarks m)) as [Hold|Hfresh].
      + by apply Hs, Hm.
      + destruct (Hnew k Hk Hfresh) as (-> & Hne & _).
        unfold addState. apply String.eqb_neq in Hne. rewrite Hne. simpl.
        destruct acc; simpl; apply elem_of_union_l, elem_of_singleton; done.
    - intros s f m. unfold acceptanceMarks.
      by destruct (addTransition_frame s f m) as (-> & -> & _).
    - intros o ->. by destruct o. }
  apply Hrun. done.
Qed.

(** X4.  An acceptance mark is never taken back: a name that is marked stays
    marked through every sequence of calls without [clear], also when
    [addState] is called for it again with [acceptance = false]. *)
Theorem marks_never_removed (k : string) (cs : list Call) (w : World) :
  Forall (fun c => c <> CallClear) cs ->
  k ∈ acceptanceMarks (machine w) ->
  k ∈ acceptanceMarks (machine (run compile cs w)).
Proof.
  revert w. induction cs as [|c cs IH]; intros w Hcs Hw; [done|].
  inversion Hcs as [|? ? Hc Hcs']; subst. apply IH; [done|].
  apply (call_preserves compile (fun m => k ∈ acceptanceMarks m)); try done.
  - intros s acc m Hm. by apply (addState_marks s acc m).
  - intros s f m. unfold acceptanceMarks.
    by destruct (addTransition_frame s f m) as (_ & -> & _).
  - intros o ->. by destruct o.
Qed.

(** X5.  A rule is never replaced: the rule registered for a state stays
    the rule of that state through every sequence of calls without [clear],
    whatever [addTransition] and [fromJson] are given for that name. *)
Theorem rules_never_replaced (k : string) (f : transFunction) (cs : list Call)
    (w : World) :
  Forall (fun c => c <> CallClear) cs ->
  _transitions (machine w) !! k = Some f ->
  _transitions (machine (run compile cs w)) !! k = Some f.
Proof.
  revert w. induction cs as [|c cs IH]; intros w Hcs Hw; [done|].
  inversion Hcs as [|? ? Hc Hcs']; subst. apply IH; [done|].
  apply (call_preserves compile (fun m => _transitions m !! k = Some f)); try done.
  - intros s acc m. by destruct (addState_states s acc m) as (_ & -> & _).
  - intros s g m Hm.
    destruct (addTransition_result s g m) as [(_ & Hno & ->) | (_ & ->)]; simpl; [|done].
    rewrite lookup_insert_ne; [done|]. intros ->. congruence.
  - intros o ->. by destruct o.
Qed.

(** X6.  An observer that was never passed to [addSubscriber] receives
    nothing: no sequence of calls on a new machine delivers an event to it. *)
Theorem unsubscribed_observer_receives_nothing (o : nat) (cs : list Call) (h : Heap) :
  Forall (fun c => c <> CallAddSubscriber (Some o)) cs ->
  filter (fun d => dl_observer d = o) (log (run compile cs (new_World h))) = [].
Proof.
  intros Hcs. rewrite (run_unsubscribed compile o cs (new_World h) Hcs); [done|].
  simpl. apply not_elem_of_nil.
Qed.

End RunInvariants.

(** ** Stepping *)

Lemma set_curState_same (m : FiniteStateMachine) : set_curState (_curState m) m = m.
Proof. by destruct m. Qed.


Lemma next_plain_step (x : JsVal) (m : FiniteStateMachine) :
  fst (fst (next x None m)) = set_curState (target m (currentState m) x) m.
Proof.
  unfold next, target, currentState. simpl.
  destruct (_transitions m !! _curState m); simpl; [done|].
  by rewrite set_curState_same.
Qed.

Lemma feed_fold (inputs : list JsVal) (m : FiniteStateMachine) :
  feed inputs m
  = set_curState (fold_left (target m) inputs (currentState m)) m.
Proof.
  unfold feed. revert m. induction inputs as [|x inputs IH]; intros m; simpl.
  { by rewrite set_curState_same. }
  rewrite next_plain_step, IH. by destruct m.
Qed.


(** ** The loader: results *)

Section LoaderResults.

Variable compile : string -> option transFunction.

Lemma load_states_none_wf (l : list StateDescr) (m m' : FiniteStateMachine) :
  load_states compile l m = (m', None) -> Forall (well_formed compile) l.
Proof.
  revert m. induction l as [|sd l IH]; intros m; simpl; [by constructor|].
  destruct (sd_name sd) as [s|] eqn:En, (sd_isAcceptance sd) as [acc|] eqn:Ea,
    (sd_transition sd) as [body|] eqn:Et; simpl; try done.
  destruct (compile body) as [f|] eqn:Ec; simpl; [|done].
  intros Hl. constructor; [|by eapply IH].
  unfold well_formed. rewrite En, Ea, Et. repeat split; eauto.
Qed.

Lemma load_states_throw (l : list StateDescr) (m m' : FiniteStateMachine) (e : Error) :
  load_states compile l m = (m', Some (Throw e)) ->
  e = SyntaxError
  /\ exists sd body, sd ∈ l /\ sd_transition sd = Some body /\ compile body = None.
Proof.
  revert m. induction l as [|sd l IH]; intros m; simpl; [done|].
  destruct (sd_name sd) as [s|] eqn:En, (sd_isAcceptance sd) as [acc|] eqn:Ea,
    (sd_transition sd) as [body|] eqn:Et; simpl; try done.
  destruct (compile body) as [f|] eqn:Ec; simpl.
  - intros Hl. destruct (IH _ Hl) as (-> & sd' & body' & Hin & Hb & Hc).
    split; [done|]. exists sd', body'. split; [by apply list_elem_of_further | done].
  - intros [= <- <-]. split; [done|]. exists sd, body.
    split; [apply list_elem_of_here | done].
Qed.

(** X9.  The result of [fromJson] is one of five kinds: its action is
    NO_DATA, MISSING_PROPS, INVALID_DATA, NO_STATE or VALID; it is a success
    exactly when the action is VALID; and it reports a node only with
    INVALID_DATA. *)
Theorem fromJson_result_kinds (d : option Document) (m m' : FiniteStateMachine)
    (h h' : Heap) (r : IDecisionTreeAction) :
  fromJson compile d m h = (m', h', Normal r) ->
  action r ∈ [NO_DATA; MISSING_PROPS; INVALID_DATA; NO_STATE; VALID]
  /\ (success r = true <-> action r = VALID)
  /\ (is_Some (node r) -> action r = INVALID_DATA).
Proof.
  intros Hf. pose proof (fromJson_spec compile d m h) as Hspec.
  rewrite Hf in Hspec.
  assert (forall a n, a ∈ [NO_DATA; MISSING_PROPS; INVALID_DATA; NO_STATE] ->
            (is_Some n -> a = INVALID_DATA) ->
            action (failure a n) ∈ [NO_DATA; MISSING_PROPS; INVALID_DATA; NO_STATE; VALID]
            /\ (success (failure a n) = true <-> action (failure a n) = VALID)
            /\ (is_Some (node (failure a n)) -> action (failure a n) = INVALID_DATA))
    as Hfail.
  { intros a n Ha Hn. simpl. split; [|split; [|done]].
    - rewrite !elem_of_cons in Ha. rewrite !elem_of_cons. tauto.
    - split; [done|]. intros ->. rewrite !elem_of_cons in Ha.
      destruct Ha as [?|[?|[?|[?|?%elem_of_nil]]]]; done. }
  assert (action valid ∈ [NO_DATA; MISSING_PROPS; INVALID_DATA; NO_STATE; VALID]
          /\ (success valid = true <-> action valid = VALID)
          /\ (is_Some (node valid) -> action valid = INVALID_DATA)) as Hvalid.
  { simpl. split; [|split; [done|]].
    - rewrite !elem_of_cons. tauto.
    - by intros [? ?]. }
  inversion Hspec as [ | | | | | doc dname a es l m5 stop Hn Ha Hc Hs Hl
                     | doc dname a es l m5 m2 h2 r2 Hn Ha Hc Hs Hne Hl Hi ]; subst.
  - apply Hfail; [rewrite !elem_of_cons; tauto | by intros [? ?]].
  - apply Hfail; [rewrite !elem_of_cons; tauto | by intros [? ?]].
  - apply Hfail; [rewrite !elem_of_cons; tauto | by intros [? ?]].
  - apply Hfail; [rewrite !elem_of_cons; tauto | by intros [? ?]].
  - apply Hfail; [rewrite !elem_of_cons; tauto | by intros [? ?]].
  - destruct (load_states_stop compile _ _ _ _ Hl) as (? & ? & ? & _ & -> & _).
    apply Hfail; [rewrite !elem_of_cons; tauto | done].
  - inversion Hi; subst; [exact Hvalid | | exact Hvalid].
    apply Hfail; [rewrite !elem_of_cons; tauto | done].
Qed.

Lemma fromJson_result_success (doc : Document) (m : FiniteStateMachine)
    (h : Heap) :
  (exists m' h' r, fromJson compile (Some doc) m h = (m', h', Normal r)
                   /\ success r = true)
  <-> loadable compile h doc.
Proof.
  split.
  - intros (m' & h' & r & Hf & Hr).
    destruct (fromJson_success compile _ _ _ _ _ _ Hf Hr)
      as (doc' & dname & a & es & l & m5 & [= <-] & Hn & Ha & Hc & Hs & Hne & Hl & Hi).
    exists dname, a, es, l. do 5 (split; [done|]).
    split; [by eapply load_states_none_wf|].
    inversion Hi as [ Hd | tmp Hobj Hd | tmp h2 e Hobj Hclone Hd
                    | tmp h2 v Hobj Hclone Hd ]; subst; try done.
    split; [done|].
    destruct (JSON_clone_normal _ _ _ _ Hclone) as (t & _ & _ & Ht & _). rewrite Ht. eauto.
  - intros (dname & a & es & l & Hn & Ha & Hc & Hs & Hne & Hwf & Hdata).
    unfold fromJson. rewrite Hn, Ha, Hs. simpl. rewrite Hc.
    destruct (length l =? 0)%nat eqn:Hlen.
    { apply Nat.eqb_eq, length_zero_iff_nil in Hlen. done. }
    match goal with
    | |- context [load_states compile l ?m0] =>
        pose proof (load_states_total compile l m0 Hwf) as Htot;
        destruct (load_states compile l m0) as [m5 stop]
    end.
    simpl in Htot. subst stop.
    destruct (doc_initialData doc) as [tmp|]; [|by eexists _, _, _].
    destruct Hdata as [Hobj [t Ht]]. rewrite Hobj.
    unfold JSON_clone. rewrite Ht.
    destruct (is_object_deep _ _ _ Hobj Ht) as [ps ->]. simpl.
    destruct (alloc_each _ _ _) as [h1 ps']. simpl. by eexists _, _, _.
Qed.

(** X10.  [fromJson] succeeds exactly on the documents that have a name, an
    alphabet that is an array, a non-empty array of states whose descriptors
    all have [name], [isAcceptance] and a [transition] that compiles, and
    either no [initialData] or one that is a plain object without cycles. *)
Theorem fromJson_succeeds_iff_loadable (doc : Document) (m : FiniteStateMachine)
    (h : Heap) :
  (exists m' h' r, fromJson compile (Some doc) m h = (m', h', Normal r)
                   /\ success r = true)
  <-> loadable compile h doc.
Proof. apply fromJson_result_success. Qed.

Lemma load_states_app (pre rest : list StateDescr) (m m1 : FiniteStateMachine) :
  load_states compile pre m = (m1, None) ->
  load_states compile (pre ++ rest) m = load_states compile rest m1.
Proof.
  revert m. induction pre as [|sd pre IH]; intros m; simpl; [by intros [= <-]|].
  destruct (sd_name sd) as [s|], (sd_isAcceptance sd) as [acc|],
    (sd_transition sd) as [body|]; simpl; try done.
  destruct (compile body) as [f|]; simpl; [|done]. apply IH.
Qed.

(** X11.  Two failures are not reported but thrown.  When the transition
    text of a descriptor does not compile, [fromJson] throws a SyntaxError
    at the load, with the descriptors before it registered; when every
    descriptor is accepted and [initialData] is an object that cannot be
    unfolded (it contains a cycle), [fromJson] throws a TypeError, with
    every descriptor registered. *)
Theorem fromJson_throws_when (doc : Document) (m : FiniteStateMachine) (h : Heap)
    (dname : string) (a : nat) (es : list JsVal) :
  doc_name doc = Some dname ->
  doc_alphabet doc = Some (JRef a) -> h !! a = Some (CArray es) ->
  (forall pre sd post body,
     doc_states doc = Some (StatesArray (pre ++ sd :: post)) ->
     Forall (well_formed compile) pre ->
     is_Some (sd_name sd) -> is_Some (sd_isAcceptance sd) ->
     sd_transition sd = Some body -> compile body = None ->
     exists m', fromJson compile (Some doc) m h = (m', h ++ [CArray es], Throw SyntaxError)
                /\ Forall (registered m') pre)
  /\ (forall l tmp,
        doc_states doc = Some (StatesArray l) -> l <> [] ->
        Forall (well_formed compile) l ->
        doc_initialData doc = Some tmp ->
        is_object (h ++ [CArray es]) tmp = true ->
        deep (h ++ [CArray es]) tmp = None ->
        exists m', fromJson compile (Some doc) m h = (m', h ++ [CArray es], Throw TypeError)
                   /\ Forall (registered m') l).
Proof.
  intros Hn Ha Hc. split.
  - intros pre sd post body Hs Hwf [s Hsn] [acc Hsa] Hst Hcb.
    unfold fromJson. rewrite Hn, Ha, Hs. simpl. rewrite Hc.
    destruct (length (pre ++ sd :: post) =? 0)%nat eqn:Hlen.
    { apply Nat.eqb_eq, length_zero_iff_nil in Hlen. by destruct pre. }
    match goal with
    | |- context [load_states compile (pre ++ sd :: post) ?m0] =>
        pose proof (load_states_total compile pre m0 Hwf) as Htot;
        destruct (load_states compile pre m0) as [m1 stop] eqn:Hpre
    end.
    simpl in Htot. subst stop.
    rewrite (load_states_app pre (sd :: post) _ m1 Hpre).
    simpl. rewrite Hsn, Hsa, Hst, Hcb.
    exists m1. split; [done|]. by eapply load_states_complete.
  - intros l tmp Hs Hne Hwf Hd Hobj Hdeep.
    unfold fromJson. rewrite Hn, Ha, Hs. simpl. rewrite Hc.
    destruct (length l =? 0)%nat eqn:Hlen.
    { apply Nat.eqb_eq, length_zero_iff_nil in Hlen. done. }
    match goal with
    | |- context [load_states compile l ?m0] =>
        pose proof (load_states_total compile l m0 Hwf) as Htot;
        destruct (load_states compile l m0) as [m5 stop] eqn:Hl
    end.
    simpl in Htot. subst stop.
    rewrite Hd, Hobj. unfold JSON_clone. rewrite Hdeep.
    exists m5. split; [done|]. by eapply load_states_complete.
Qed.

End LoaderResults.

(** ** The loader: what a load registers *)

Lemma registered_names_cons (sd : StateDescr) (l : list StateDescr) :
  registered_names (sd :: l)
  = match registered_name sd with Some s => {[s]} | None => ∅ end ∪ registered_names l.
Proof.
  unfold registered_names. simpl.
  destruct (registered_name sd); simpl; [done|]. by rewrite (left_id_L ∅ (∪)).
Qed.

Lemma marked_names_cons (sd : StateDescr) (l : list StateDescr) :
  marked_names (sd :: l)
  = match sd_isAcceptance sd with
    | Some true => match registered_name sd with Some s => {[s]} | None => ∅ end
    | _ => ∅
    end ∪ marked_names l.
Proof.
  unfold marked_names. simpl.
  destruct (sd_isAcceptance sd) as [[|]|]; simpl; try by rewrite (left_id_L ∅ (∪)).
  destruct (registered_name sd); simpl; [done|]. by rewrite (left_id_L ∅ (∪)).
Qed.

(** One pass of the loop body: [addState] then [addTransition]. *)
Lemma register_step (s : string) (acc : bool) (f : transFunction)
    (m : FiniteStateMachine) :
  "" ∉ _states m ->
  let m2 := fst (addTransition s f (addState s acc m)) in
  (s = "" -> m2 = m)
  /\ (s <> "" ->
        _states m2 = {[s]} ∪ _states m
        /\ acceptanceMarks m2
           = (if acc then {[s]} ∖ {["__proto__"]} else ∅) ∪ acceptanceMarks m
        /\ _transitions m2
           = match _transitions m !! s with
             | Some _ => _transitions m
             | None => <[s := f]> (_transitions m)
             end).
Proof.
  intros Hempty. simpl. split.
  - intros ->. unfold addState. simpl.
    by destruct (addTransition_result "" f m) as [(Hin & _) | (_ & ->)].
  - intros Hne.
    assert (addState s acc m
            = if acc
              then set_acceptanceStates
                     (Some ({[s]} ∖ {["__proto__"]} ∪ acceptanceMarks m))
                     (set_states ({[s]} ∪ _states m) m)
              else set_states ({[s]} ∪ _states m) m) as Hadd.
    { unfold addState. apply String.eqb_neq in Hne. rewrite Hne. simpl.
      destruct acc; [|done]. f_equal. f_equal. unfold acceptanceMarks. simpl.
      destruct (String.eqb_spec s "__proto__") as [->|Hp]; set_solver. }
    assert (s ∈ _states (addState s acc m)) as Hin.
    { rewrite Hadd. destruct acc; simpl; apply elem_of_union_l, elem_of_singleton; done. }
    assert (_transitions (addState s acc m) = _transitions m) as Htr
      by (rewrite Hadd; by destruct acc).
    destruct (addTransition_result s f (addState s acc m))
      as [(_ & Hno & ->) | ([Hnin|Hsome] & ->)]; simpl; try done.
    + rewrite Htr in *. rewrite Hno. rewrite Hadd.
      destruct acc; simpl; unfold acceptanceMarks; simpl; repeat split; try done.
      by rewrite (left_id_L ∅ (∪)).
    + rewrite Htr in *. destruct Hsome as [g Hg]. rewrite Hg. rewrite Hadd.
      destruct acc; simpl; unfold acceptanceMarks; simpl; repeat split; try done.
      by rewrite (left_id_L ∅ (∪)).
Qed.

Section LoaderContents.

Variable compile : string -> option transFunction.

Lemma load_states_contents (l : list StateDescr) (m m' : FiniteStateMachine) :
  load_states compile l m = (m', None) -> "" ∉ _states m ->
  _states m' = _states m ∪ registered_names l
  /\ dom (_transitions m') = dom (_transitions m) ∪ registered_names l
  /\ acceptanceMarks m' = acceptanceMarks m ∪ (marked_names l ∖ {["__proto__"]})
  /\ forall s, _transitions m' !! s
       = match _transitions m !! s with
         | Some f => Some f
         | None => if decide (s = "") then None else first_rule compile l s
         end.
Proof.
  revert m. induction l as [|sd l IH]; intros m; simpl.
  { intros [= <-] _. unfold registered_names, marked_names. simpl.
    split; [set_solver|]. split; [set_solver|]. split; [set_solver|].
    intros s. destruct (_transitions m !! s); [done|]. by destruct (decide (s = "")). }
  destruct (sd_name sd) as [s0|] eqn:En, (sd_isAcceptance sd) as [acc|] eqn:Ea,
    (sd_transition sd) as [body|] eqn:Et; simpl; try done.
  destruct (compile body) as [f0|] eqn:Ec; simpl; [|done].
  intros Hl Hempty.
  destruct (register_step s0 acc f0 m Hempty) as [Hnil Hstep]. simpl in Hnil, Hstep.
  assert (registered_name sd = if String.eqb s0 "" then None else Some s0) as Hrn
    by (unfold registered_name; by rewrite En).
  rewrite registered_names_cons, marked_names_cons, Ea, Hrn.
  destruct (String.eqb_spec s0 "") as [->|Hne].
  - rewrite (Hnil eq_refl) in Hl.
    destruct (IH _ Hl Hempty) as (H1 & H2 & H3 & H4).
    rewrite H1, H2, H3.
    split; [set_solver|]. split; [set_solver|]. split; [destruct acc; set_solver|].
    intros s. rewrite H4. destruct (_transitions m !! s); [done|].
    destruct (decide (s = "")) as [->|Hs]; [done|].
    destruct (decide (Some "" = Some s)) as [[= ?]|_]; done.
  - destruct (Hstep Hne) as (Hs2 & Hm2 & Ht2).
    assert ("" ∉ _states (fst (addTransition s0 f0 (addState s0 acc m)))) as Hempty2.
    { rewrite Hs2. set_solver. }
    destruct (IH _ Hl Hempty2) as (H1 & H2 & H3 & H4).
    rewrite H1, H2, H3, Hs2, Hm2, Ht2.
    split; [set_solver|]. split; [|split].
    + destruct (_transitions m !! s0) as [g|] eqn:Eg.
      * assert (s0 ∈ dom (_transitions m)) as Hd by (apply elem_of_dom; eauto).
        set_solver.
      * rewrite dom_insert_L. set_solver.
    + destruct acc; set_solver.
    + intros s. rewrite H4, Ht2. cbn [first_rule]. rewrite ?En, ?Et.
      destruct (decide (Some s0 = Some s)) as [[= ->]|Hss].
      * rewrite ?Ec.
        destruct (_transitions m !! s) as [g|] eqn:Eg; [by rewrite Eg|].
        rewrite lookup_insert_eq. by destruct (decide (s = "")).
      * assert (s0 <> s) by (intros ->; done).
        destruct (_transitions m !! s0); [done|]. by rewrite lookup_insert_ne.
Qed.

(** X12.  A load that succeeds on a machine registers exactly the named
    descriptors of the document: the states are the old ones and the
    non-empty descriptor names, the states with a rule are the old ones and
    those names, and the marked states are the old ones and the names of
    the descriptors with [isAcceptance] true, except the name [__proto__],
    which the hash does not store. *)
Theorem fromJson_registers (doc : Document) (m m' : FiniteStateMachine)
    (h h' : Heap) (r : IDecisionTreeAction) :
  fromJson compile (Some doc) m h = (m', h', Normal r) -> success r = true ->
  "" ∉ _states m ->
  _states m' = _states m ∪ registered_names (doc_descriptors doc)
  /\ dom (_transitions m') = dom (_transitions m) ∪ registered_names (doc_descriptors doc)
  /\ acceptanceMarks m'
     = acceptanceMarks m ∪ (marked_names (doc_descriptors doc) ∖ {["__proto__"]}).
Proof.
  intros Hf Hr Hempty.
  destruct (fromJson_success compile _ _ _ _ _ _ Hf Hr)
    as (doc' & dname & a & es & l & m5 & [= <-] & Hn & Ha & Hc & Hs & Hne & Hl & Hi).
  unfold doc_descriptors. rewrite Hs.
  destruct (load_states_contents l _ _ Hl Hempty) as (H1 & H2 & H3 & _).
  simpl in H1, H2, H3.
  assert (_states m' = _states m5 /\ _transitions m' = _transitions m5
          /\ acceptanceMarks m' = acceptanceMarks m5) as (-> & -> & ->)
    by (inversion Hi; subst; done).
  done.
Qed.

Lemma fromJson_rule_lookup (doc : Document) (m m' : FiniteStateMachine)
    (h h' : Heap) (r : IDecisionTreeAction) (s : string) :
  fromJson compile (Some doc) m h = (m', h', Normal r) -> success r = true ->
  "" ∉ _states m -> s <> "" ->
  _transitions m' !! s
  = match _transitions m !! s with
    | Some f => Some f
    | None => first_rule compile (doc_descriptors doc) s
    end.
Proof.
  intros Hf Hr Hempty Hs0.
  destruct (fromJson_success compile _ _ _ _ _ _ Hf Hr)
    as (doc' & dname & a & es & l & m5 & [= <-] & Hn & Ha & Hc & Hs & Hne & Hl & Hi).
  unfold doc_descriptors. rewrite Hs.
  destruct (load_states_contents l _ _ Hl Hempty) as (_ & _ & _ & H4).
  specialize (H4 s). simpl in H4. rewrite decide_False in H4 by done.
  assert (_transitions m' = _transitions m5) as -> by (inversion Hi; subst; done).
  done.
Qed.

(** X13.  When a document names a state more than once, the first
    descriptor's transition is the one registered; and a state that already
    had a rule keeps it.  After a successful load, the rule of each state is
    the one it had, or else the compiled transition of the first descriptor
    of that name. *)
Theorem fromJson_first_descriptor_wins (doc : Document) (m m' : FiniteStateMachine)
    (h h' : Heap) (r : IDecisionTreeAction) (s : string) :
  fromJson compile (Some doc) m h = (m', h', Normal r) -> success r = true ->
  "" ∉ _states m -> s <> "" ->
  _transitions m' !! s
  = match _transitions m !! s with
    | Some f => Some f
    | None => first_rule compile (doc_descriptors doc) s
    end.
Proof. apply fromJson_rule_lookup. Qed.

(** X14.  A machine loaded from a document is ready to step: when the
    document's [initialState] is the name of one of its descriptors, the
    first [next(input)] on a newly constructed machine that loaded it fires
    the compiled rule of the first descriptor of that name. *)
Theorem loaded_machine_steps (doc : Document) (m' : FiniteStateMachine)
    (h h' : Heap) (r : IDecisionTreeAction) (s : string) (f : transFunction)
    (input : JsVal) :
  fromJson compile (Some doc) new_FiniteStateMachine h = (m', h', Normal r) ->
  success r = true ->
  doc_initialState doc = Some s -> s <> "" ->
  first_rule compile (doc_descriptors doc) s = Some f ->
  snd (next input None m')
  = Some {| out_to := out_to (f input s);
            out_data := if truthy (out_data (f input s))
                        then out_data (f input s) else input |}
  /\ currentState (fst (fst (next input None m'))) = out_to (f input s).
Proof.
  intros Hf Hr Hinit Hne Hfirst.
  assert ("" ∉ _states new_FiniteStateMachine) as Hempty by apply not_elem_of_empty.
  pose proof (fromJson_rule_lookup doc _ _ _ _ _ s Hf Hr Hempty Hne) as Hrule.
  simpl in Hrule. rewrite lookup_empty, Hfirst in Hrule.
  destruct (fromJson_success_fields compile _ _ _ _ _ _ Hf Hr)
    as (doc' & dname & a & es & [= <-] & _ & _ & _ & _ & Hi & Hcur & _).
  assert (currentState m' = s) as Hs by (by rewrite Hcur, Hi, Hinit).
  assert (_transitions (apply_override None m')
            !! currentState (apply_override None m') = Some f) as Hfire
    by (simpl; by rewrite Hs).
  rewrite (next_fires input None m' f Hfire). cbn [fst snd apply_override].
  rewrite Hs. done.
Qed.

End LoaderContents.

(** ** create *)

Section Factory.

Variable compile : string -> option transFunction.

(** X15.  [create] returns null for an absent document and for a document
    [fromJson] reports a failure for, and a machine exactly for the
    documents [fromJson] accepts; an exception thrown by [fromJson] is
    thrown by [create].  The machine it returns is the one [fromJson] builds
    on a new machine, named by the second argument of [create], or by the
    empty string when there is none: the document's own name is
    overwritten. *)
Theorem create_names_the_machine (doc : Document) (mname : option string) (h : Heap) :
  create compile None mname h = (h, Normal None)
  /\ ((exists m h', create compile (Some doc) mname h = (h', Normal (Some m)))
      <-> loadable compile h doc)
  /\ (forall m h', create compile (Some doc) mname h = (h', Normal (Some m)) ->
        name m = default "" mname
        /\ exists m0, fromJson compile (Some doc) new_FiniteStateMachine h
                      = (m0, h', Normal valid)
             /\ m = set_name (default "" mname) m0)
  /\ (forall h', create compile (Some doc) mname h = (h', Normal None)
        <-> exists m0 r, fromJson compile (Some doc) new_FiniteStateMachine h
                          = (m0, h', Normal r) /\ success r = false)
  /\ (forall h' e, create compile (Some doc) mname h = (h', Throw e)
        <-> exists m0, fromJson compile (Some doc) new_FiniteStateMachine h
                       = (m0, h', Throw e)).
Proof.
  split; [done|].
  pose proof (fromJson_result_success compile doc new_FiniteStateMachine h) as Hiff.
  unfold create.
  destruct (fromJson compile (Some doc) new_FiniteStateMachine h) as [[m0 h0] [r|e]] eqn:Hf.
  - destruct (success r) eqn:Hr; simpl.
    + split; [|split; [|split]].
      * split; [intros _|eauto]. apply Hiff. by exists m0, h0, r.
      * intros m h' [= <- <-]. split; [done|]. exists m0. split; [|done].
        pose proof (fromJson_spec compile (Some doc) new_FiniteStateMachine h) as Hspec.
        rewrite Hf in Hspec.
        inversion Hspec as [ | | | | | ? ? ? ? ? ? ? ? ? ? ? Hl
                           | ? ? ? ? ? ? ? ? ? ? ? ? ? ? ? Hi ]; subst; try done.
        -- destruct (load_states_stop compile _ _ _ _ Hl) as (? & ? & ? & _ & -> & _).
           done.
        -- by inversion Hi; subst.
      * intros h'. split; [done|]. intros (m1 & r1 & [= <- <- <-] & Hr1). congruence.
      * intros h' e. split; [done|]. by intros (m1 & [=]).
    + split; [|split; [|split]].
      * split; [by intros (? & ? & [=])|].
        intros Hload. apply Hiff in Hload as (m1 & h1 & r1 & [= <- <- <-] & Hr1).
        congruence.
      * by intros m h' [=].
      * intros h'. split; [intros [= <-]; by exists m0, r|].
        by intros (m1 & r1 & [= <- <- <-] & _).
      * intros h' e. split; [done|]. by intros (m1 & [=]).
  - simpl. split; [|split; [|split]].
    + split; [by intros (? & ? & [=])|].
      intros Hload. apply Hiff in Hload as (m1 & h1 & r1 & [=] & _).
    + by intros m h' [=].
    + intros h'. split; [done|]. by intros (m1 & r1 & [=] & _).
    + intros h' e'. split; [intros [= <- <-]; by exists m0|].
      by intros (m1 & [= <- <- <-]).
Qed.

End Factory.

(** ** The store *)

Lemma mutate_all_length (mus : list Mutation) (h : Heap) :
  length h <= length (mutate_all mus h).
Proof.
  revert h. induction mus as [|mu mus IH]; intros h; simpl; [done|].
  etrans; [|apply IH]. destruct mu; simpl; [by rewrite length_insert|].
  rewrite length_app. simpl. lia.
Qed.

Lemma mutate_all_below (base : nat) (mus : list Mutation) (h : Heap) (a : nat) (c : Cell) :
  below base mus -> base <= a -> h !! a = Some c -> mutate_all mus h !! a = Some c.
Proof.
  revert h. induction mus as [|mu mus IH]; intros h Hb Ha Hc; simpl; [done|].
  inversion Hb as [|? ? Hmu Hb']; subst. apply IH; [done | done |].
  destruct mu as [a' c'|c']; simpl.
  - rewrite list_lookup_insert_ne; [done | lia].
  - by apply lookup_app_l_Some.
Qed.

Lemma mutate_all_avoiding (addr : nat) (mus : list Mutation) (h : Heap) (c : Cell) :
  avoiding addr mus -> h !! addr = Some c -> mutate_all mus h !! addr = Some c.
Proof.
  revert h. induction mus as [|mu mus IH]; intros h Hb Hc; simpl; [done|].
  inversion Hb as [|? ? Hmu Hb']; subst. apply IH; [done|].
  destruct mu as [a' c'|c']; simpl.
  - by rewrite list_lookup_insert_ne.
  - by apply lookup_app_l_Some.
Qed.

(** An unfolding that starts above [base] only reads cells above [base],
    when these refer to cells above [base] only. *)
Lemma structure_region (base n : nat) (h1 h2 : Heap) (v : JsVal) (t : Tree) :
  (forall a c, base <= a -> h1 !! a = Some c -> h2 !! a = Some c /\ cell_above base c) ->
  val_above base v ->
  structure n h1 v = Some t -> structure n h2 v = Some t.
Proof.
  intros Hreg. revert v t. induction n as [|n IH]; intros v t Hv Hs;
    rewrite structure_unfold in Hs; rewrite structure_unfold;
    destruct v as [| | | | | |a]; try done.
  simpl in Hv. destruct (h1 !! a) as [cell|] eqn:Ha; [|done].
  destruct (Hreg a cell Hv Ha) as [-> Hcell].
  destruct cell as [ps|es]; simpl in Hcell.
  - destruct (mapM _ ps) as [ts|] eqn:Hm; [|done].
    apply mapM_Some in Hm.
    assert (mapM (fun kv => pair (fst kv) <$> structure n h2 (snd kv)) ps = Some ts)
      as ->; [|done].
    apply mapM_Some. clear Hs Ha.
    induction Hm as [|kv kt ps ts Hk _ IHm]; [constructor|].
    inversion Hcell as [|? ? Hkv Hps]; subst. constructor; [|by apply IHm].
    destruct (structure n h1 (snd kv)) as [x|] eqn:Hx; [|done].
    by rewrite (IH _ _ Hkv Hx).
  - destruct (mapM _ es) as [ts|] eqn:Hm; [|done].
    apply mapM_Some in Hm.
    assert (mapM (structure n h2) es = Some ts) as ->; [|done].
    apply mapM_Some. clear Hs Ha.
    induction Hm as [|x y es ts Hx _ IHm]; [constructor|].
    inversion Hcell as [|? ? Hvx Hes]; subst. constructor; [|by apply IHm].
    by apply IH.
Qed.

Section Snapshots.

Variable compile : string -> option transFunction.

(** X16.  The loader only allocates: whatever [fromJson] returns or throws,
    the store after the call is the store before it with new cells
    appended, so the document, its alphabet array and its initial data
    object are left as they were. *)
Theorem fromJson_only_allocates (d : option Document) (m : FiniteStateMachine)
    (h : Heap) :
  h `prefix_of` snd (fst (fromJson compile d m h)).
Proof.
  pose proof (fromJson_spec compile d m h) as Hspec.
  destruct (fromJson compile d m h) as [[m' h'] r]. simpl.
  inversion Hspec as [ | | | | | | ? ? ? ? ? ? ? ? ? ? ? ? ? ? ? Hi ];
    subst; try done; try (by apply prefix_app_r).
  inversion Hi as [ | | ? ? ? ? Hc | ? ? ? ? Hc ]; subst;
    try (by apply prefix_app_r).
  - unfold JSON_clone in Hc.
    destruct (deep _ _) as [t|]; [|injection Hc as <- _; by apply prefix_app_r].
    destruct (to_json t) as [j|]; [|injection Hc as <- _; by apply prefix_app_r].
    destruct (alloc j _) as [h3 r3]. done.
  - destruct (JSON_clone_normal _ _ _ _ Hc) as (_ & _ & ext & _ & _ & _ & -> & _).
    rewrite <- app_assoc. by apply prefix_app_r.
Qed.

(** X17.  The getters only allocate too: reading [alphabet] or
    [initialData] leaves every existing cell as it was. *)
Theorem getters_only_allocate (m : FiniteStateMachine) (h : Heap) :
  h `prefix_of` fst (alphabet m h) /\ h `prefix_of` fst (initialData m h).
Proof.
  split.
  - unfold alphabet, slice. destruct (_alphabet m) as [| | | | | |a]; try done.
    destruct (h !! a) as [[ps|es]|]; try done. simpl. by apply prefix_app_r.
  - unfold initialData. destruct (truthy (_initialData m)); [|done].
    unfold JSON_clone. destruct (deep _ _) as [t|]; [|done].
    destruct (to_json t) as [j|]; [|done].
    destruct (alloc j h) as [h3 r3] eqn:Ha. simpl.
    destruct (alloc_allocates j _ _ _ Ha) as (ext & -> & _). by apply prefix_app_r.
Qed.

(** X18.  The initial data of a loaded machine is a snapshot: whatever is
    written afterwards to cells that existed before the load (the
    document's own objects among them), [initialData] returns a value with
    the same structure as before. *)
Theorem initialData_is_a_snapshot (doc : Document) (m m' : FiniteStateMachine)
    (h h' : Heap) (r : IDecisionTreeAction) (vd : JsVal) (mus : list Mutation) :
  fromJson compile (Some doc) m h = (m', h', Normal r) -> success r = true ->
  doc_initialData doc = Some vd ->
  below (length h) mus ->
  exists j ext1 r1 ext2 r2,
    initialData m' h' = (h' ++ ext1, Normal r1)
    /\ deep (h' ++ ext1) r1 = Some j
    /\ initialData m' (mutate_all mus h') = (mutate_all mus h' ++ ext2, Normal r2)
    /\ deep (mutate_all mus h' ++ ext2) r2 = Some j.
Proof.
  intros Hf Hr Hvd Hmus.
  destruct (fromJson_success_fields compile _ _ _ _ _ _ Hf Hr)
    as (doc' & dname & a & es & [= <-] & _ & _ & _ & _ & _ & _ & _ & _ & _ & H7).
  destruct (H7 vd Hvd) as [Hobj Hclone].
  destruct (JSON_clone_object _ _ _ _ Hobj Hclone)
    as (j & Htruthy & Hdeep & Hplain & _ & _).
  destruct (JSON_clone_normal _ _ _ _ Hclone)
    as (_ & _ & ext & _ & _ & _ & Hh' & Hcells & Hv & _).
  destruct (initialData_read m' h' j Htruthy Hdeep Hplain)
    as (ext1 & r1 & Hread & _ & _ & Hd1).
  assert (deep (mutate_all mus h') (_initialData m') = Some j) as Hdeep2.
  { unfold deep in *.
    assert (structure (S (length h')) (mutate_all mus h') (_initialData m') = Some j)
      as Hx.
    { apply (structure_region (length (h ++ [CArray es])) _ h'); [|done|done].
      intros b c Hb Hc. split.
      - apply (mutate_all_below (length h)); [done| |done].
        rewrite length_app in Hb. lia.
      - rewrite Hh' in Hc. rewrite lookup_app_r in Hc by done.
        rewrite Forall_forall in Hcells. apply Hcells.
        by eapply list_elem_of_lookup_2. }
    apply (structure_mono _ _ _ _ Hx); [|done].
    pose proof (mutate_all_length mus h'). lia. }
  destruct (initialData_read m' (mutate_all mus h') j Htruthy Hdeep2 Hplain)
    as (ext2 & r2 & Hread2 & _ & _ & Hd2).
  by exists j, ext1, r1, ext2, r2.
Qed.

(** X19.  The alphabet of a loaded machine is a snapshot as well: whatever
    is written afterwards to any cell but the machine's own copy (to the
    document's array, or to an array a previous read returned), reading
    [alphabet] returns a new array with the elements the document's array
    had at the load. *)
Theorem alphabet_is_a_snapshot (doc : Document) (m m' : FiniteStateMachine)
    (h h' : Heap) (r : IDecisionTreeAction) (a : nat) (es : list JsVal)
    (mus : list Mutation) :
  fromJson compile (Some doc) m h = (m', h', Normal r) -> success r = true ->
  doc_alphabet doc = Some (JRef a) -> h !! a = Some (CArray es) ->
  avoiding (length h) mus ->
  alphabet m' (mutate_all mus h')
  = (mutate_all mus h' ++ [CArray es], Normal (JRef (length (mutate_all mus h')))).
Proof.
  intros Hf Hr Ha Hc Hmus.
  destruct (fromJson_success_fields compile _ _ _ _ _ _ Hf Hr)
    as (doc' & dname & a' & es' & [= <-] & _ & Ha' & Hc' & _ & _ & _ & Halpha & Hpre & _).
  rewrite Ha in Ha'. injection Ha' as <-. rewrite Hc in Hc'. injection Hc' as <-.
  assert (h' !! length h = Some (CArray es)) as Hcell.
  { apply (prefix_lookup_Some _ _ _ _
             (list_lookup_middle h [] (CArray es) _ eq_refl) Hpre). }
  unfold alphabet, slice, new_cell. rewrite Halpha.
  by rewrite (mutate_all_avoiding _ _ _ _ Hmus Hcell).
Qed.

End Snapshots.

(** ** The machines of the test suite *)

Lemma next_override_step (x : JsVal) (s : string) (m : FiniteStateMachine) :
  s <> "" ->
  fst (fst (next x (Some s) m)) = set_curState (target m s x) m.
Proof.
  intros Hs. unfold next, target. simpl. apply String.eqb_neq in Hs. rewrite Hs. simpl.
  destruct (_transitions m !! s); by simpl.
Qed.

Lemma drive_state (inputs : list JsVal) (s : string) (m : FiniteStateMachine) :
  s <> "" ->
  drive inputs s m
  = set_curState
      (fold_left (target m) (tail inputs) (target m s (default JUndefined (head inputs)))) m.
Proof.
  intros Hs. unfold drive. rewrite (next_override_step _ s m Hs).
  rewrite feed_fold. by destruct m.
Qed.

Definition zeros (bits : list Z) : nat := length (filter (fun b => b = 0%Z) bits).

Lemma even_zeros_fold (bits : list Z) (s : string) :
  s = "S1" \/ s = "S2" ->
  fold_left (target even_zeros_machine) (map JNum bits) s
  = if Nat.even (zeros bits) then s else if String.eqb s "S1" then "S2" else "S1".
Proof.
  revert s. induction bits as [|b bits IH]; intros s Hs.
  { by destruct Hs as [-> | ->]. }
  cbn [map fold_left]. unfold zeros. rewrite filter_cons.
  assert (target even_zeros_machine s (JNum b)
          = if decide (b = 0%Z) then (if String.eqb s "S1" then "S2" else "S1") else s) as ->.
  { destruct Hs as [-> | ->]; unfold target;
      [change (_transitions even_zeros_machine !! "S1") with (Some f1)
      |change (_transitions even_zeros_machine !! "S2") with (Some f2)];
      unfold f1, f2, loose_eq_number;
      destruct (decide (b = 0%Z)) as [->|Hb]; try done;
      destruct (Z.eqb_spec b 1); try done;
      destruct (Z.eqb_spec b 0); done. }
  destruct (decide (b = 0%Z)) as [->|Hb].
  - rewrite IH by (destruct Hs as [-> | ->]; auto).
    cbn [length]. rewrite Nat.even_succ, <- Nat.negb_even. fold (zeros bits).
    destruct (Nat.even (zeros bits)); destruct Hs as [-> | ->]; done.
  - rewrite IH by done. done.
Qed.

(** X20.  The two-state machine of 'machine test #1', driven as the test
    drives it from [S1] over any sequence of numbers, ends in its acceptance
    state exactly when the sequence has an even number of zeros. *)
Theorem even_zeros_machine_accepts (bits : list Z) :
  isAcceptance (drive (map JNum bits) "S1" even_zeros_machine)
  = Normal (Nat.even (zeros bits)).
Proof.
  rewrite drive_state by done.
  assert (fold_left (target even_zeros_machine) (tail (map JNum bits))
            (target even_zeros_machine "S1" (default JUndefined (head (map JNum bits))))
          = fold_left (target even_zeros_machine) (map JNum bits) "S1") as ->.
  { destruct bits; [|done]. reflexivity. }
  rewrite even_zeros_fold by auto.
  by destruct (Nat.even (zeros bits)).
Qed.

Lemma ends_in_one_fold (bits : list Z) (s : string) :
  s = "S1" \/ s = "S2" ->
  fold_left (target ends_in_one_machine) (map JNum bits) s
  = match last (filter (fun b => b = 0%Z \/ b = 1%Z) bits) with
    | Some b => if (b =? 1)%Z then "S2" else "S1"
    | None => s
    end.
Proof.
  revert s. induction bits as [|b bits IH]; intros s Hs; [done|].
  cbn [map fold_left]. rewrite filter_cons.
  assert (target ends_in_one_machine s (JNum b)
          = if decide (b = 0%Z \/ b = 1%Z)
            then (if (b =? 1)%Z then "S2" else "S1") else s) as ->.
  { destruct Hs as [-> | ->]; unfold target;
      [change (_transitions ends_in_one_machine !! "S1") with (Some f13)
      |change (_transitions ends_in_one_machine !! "S2") with (Some f23)];
      unfold f13, f23, loose_eq_number;
      destruct (Z.eqb_spec b 1); destruct (Z.eqb_spec b 0);
      destruct (decide (b = 0%Z \/ b = 1%Z)) as [?|Hn]; try done; try lia;
      contradiction Hn; auto. }
  destruct (decide (b = 0%Z \/ b = 1%Z)) as [Hb|Hb].
  - rewrite IH by (destruct (b =? 1)%Z; auto).
    rewrite last_cons. by destruct (last _).
  - by rewrite IH.
Qed.

(** X21.  The two-state machine of 'machine test #3', driven as the test
    drives it from [S1] over any sequence of numbers, ends in its acceptance
    state exactly when the last binary digit of the sequence is a 1. *)
Theorem ends_in_one_machine_accepts (bits : list Z) :
  isAcceptance (drive (map JNum bits) "S1" ends_in_one_machine)
  = Normal (bool_decide
              (last (filter (fun b => b = 0%Z \/ b = 1%Z) bits) = Some 1%Z)).
Proof.
  rewrite drive_state by done.
  assert (fold_left (target ends_in_one_machine) (tail (map JNum bits))
            (target ends_in_one_machine "S1" (default JUndefined (head (map JNum bits))))
          = fold_left (target ends_in_one_machine) (map JNum bits) "S1") as ->.
  { destruct bits; [|done]. reflexivity. }
  rewrite ends_in_one_fold by auto.
  destruct (last _) as [b|] eqn:Hl.
  - destruct (Z.eqb_spec b 1) as [->|Hb].
    + by rewrite bool_decide_eq_true_2.
    + rewrite bool_decide_eq_false_2; [done|]. by intros [= ?].
  - by rewrite bool_decide_eq_false_2.
Qed.

(** * Worked examples *)


(** C4, on a newly constructed machine. *)
Lemma next_absent_witness :
  next (JNum 1) None new_FiniteStateMachine = (new_FiniteStateMachine, [], None)
  /\ currentState (fst (fst (next (JNum 1) None new_FiniteStateMachine))) = NO_STATE.
Proof.
  destruct (next_absent_without_rule (JNum 1) None new_FiniteStateMachine eq_refl)
    as (H1 & H2 & H3).
  split; [exact H1 | exact H2].
Defined.

(** C2, on the step from [q] to [c] with one observer attached. *)
Lemma next_publishes_witness :
  snd (fst (next (JNum 25) (Some "q") coin_machine))
  = [ {| dl_observer := 7;
         dl_event := {| tr_from := "q"; tr_to := "c"; tr_data := JNull |};
         dl_currentState := "q" |} ]
  /\ currentState (fst (fst (next (JNum 25) (Some "q") coin_machine))) = "c".
Proof.
  assert (_transitions (apply_override (Some "q") coin_machine)
            !! currentState (apply_override (Some "q") coin_machine) = Some to_c) as Hf
    by (vm_compute; reflexivity).
  destruct (next_publishes_once_before_moving (JNum 25) (Some "q") coin_machine to_c Hf
              (fst (fst (next (JNum 25) (Some "q") coin_machine)))
              (snd (fst (next (JNum 25) (Some "q") coin_machine)))
              (snd (next (JNum 25) (Some "q") coin_machine)))
    as (H1 & _ & _ & H4).
  { by destruct (next (JNum 25) (Some "q") coin_machine) as [[? ?] ?]. }
  split; [exact H1 | exact H4].
Defined.


(** C5, on the coin machine: [q] already has its rule, [c] has none yet,
    [z] is no state. *)
Lemma addTransition_witness :
  snd (addTransition "q" to_c coin_machine) = false
  /\ snd (addTransition "z" to_c coin_machine) = false
  /\ snd (addTransition "c" to_c coin_machine) = true
  /\ snd (addTransition "c" to_c
            (machine (run goto_compiler [CallNext JNull (Some "q"); CallAddState "c" false]
               {| machine := fst (addTransition "c" to_c coin_machine);
                  heap := store0; log := [] |}))) = false.
Proof.
  destruct (addTransition_contract goto_compiler "c" to_c coin_machine)
    as (_ & _ & _ & Honce & _).
  do 3 (split; [vm_compute; reflexivity|]).
  apply Honce; [vm_compute; reflexivity|].
  repeat constructor; discriminate.
Defined.

(** C9, on the coin machine: after [clear], a step from [q] finds no rule
    and observer 7 hears nothing. *)
Lemma clear_witness :
  numStates (clear coin_machine) = 0
  /\ filter (fun d => dl_observer d = 7)
       (log (run goto_compiler [CallAddState "q" false; CallNext JNull (Some "q")]
               {| machine := clear coin_machine; heap := store0; log := [] |}))
     = [].
Proof.
  destruct (clear_resets goto_compiler coin_machine)
    as (H1 & _ & _ & _ & _ & _ & _ & _ & Hlog).
  split; [exact H1|].
  apply (Hlog 7 _ store0 []). repeat constructor; discriminate.
Defined.


(** C6, counterexample.  [machine1] carries initial data, [machine2] none;
    after loading the first and then the second (a valid document), the
    machine still holds, and [initialData] still returns, the first
    document's initial data.  And a call that fails (here with NO_DATA)
    resets nothing: the machine is as the first load left it. *)
Lemma fromJson_keeps_initialData_counterexample :
  let '(m1, h1, _) := fromJson goto_compiler (Some machine1) new_FiniteStateMachine store0 in
  let '(m2, h2, r2) := fromJson goto_compiler (Some machine2) m1 h1 in
  (r2 = Normal valid
   /\ doc_initialData machine2 = None
   /\ _initialData m2 = _initialData m1
   /\ _initialData m2 <> JNull
   /\ exists h3 v,
        initialData m2 h2 = (h3, Normal v)
        /\ deep h3 v = Some (TObject [("amt", TNum 68); ("change", TNum 0)]))
  /\ (fromJson goto_compiler None m1 h1 = (m1, h1, Normal (failure NO_DATA None))
      /\ name m1 = "Machine1" /\ _initialData m1 <> JNull).
Proof.
  vm_compute. split.
  - do 3 (split; [reflexivity|]). split; [discriminate|].
    eexists _, _. split; reflexivity.
  - split; [reflexivity|]. split; [reflexivity | discriminate].
Qed.

(** C6 as amended, on loading [machine2] into a machine that holds
    [machine1]. *)
Lemma fromJson_overwrites_witness :
  let w1 := fromJson goto_compiler (Some machine1) new_FiniteStateMachine store0 in
  let w2 := fromJson goto_compiler (Some machine2) (fst (fst w1)) (snd (fst w1)) in
  name (fst (fst w2)) = "Machine2"
  /\ initialState (fst (fst w2)) = NO_STATE
  /\ _initialData (fst (fst w2)) = _initialData (fst (fst w1)).
Proof.
  intros w1 w2.
  destruct (fromJson_overwrites goto_compiler (Some machine2) (fst (fst w1)) (fst (fst w2))
              (snd (fst w1)) (snd (fst w2)) (Normal valid))
    as [Hpast _].
  { vm_compute. reflexivity. }
  destruct Hpast
    as (doc & dname & a & es & Hd & Hn & _ & _ & Hname & Hinit & _ & _ & _ & Hkeep & _).
  { intros (r & Hr & Hs & _). injection Hr as <-. discriminate Hs. }
  injection Hd as <-. injection Hn as <-.
  split; [exact Hname|]. split; [exact Hinit|]. apply Hkeep. by right.
Defined.

(** C7, counterexample.  [machine_broken] fails on its second state
    descriptor, not on initialData (it carries none), and the state and rule
    of its first descriptor remain in the machine. *)
Lemma fromJson_partial_registration_counterexample :
  let '(m', _, r) :=
    fromJson goto_compiler (Some machine_broken) new_FiniteStateMachine store0 in
  r = Normal (failure INVALID_DATA (Some (NodeState broken_descr)))
  /\ doc_initialData machine_broken = None
  /\ numStates new_FiniteStateMachine = 0 /\ numStates m' = 1
  /\ numTransitions new_FiniteStateMachine = 0 /\ numTransitions m' = 1
  /\ "S1" ∈ _states m'.
Proof.
  vm_compute. do 6 (split; [reflexivity|]).
  apply (bool_decide_unpack _). vm_compute. exact I.
Qed.

(** C7 as amended, on the same load. *)
Lemma fromJson_failure_witness :
  let w := fromJson goto_compiler (Some machine_broken) new_FiniteStateMachine store0 in
  exists pre post,
    doc_states machine_broken = Some (StatesArray (pre ++ broken_descr :: post))
    /\ Forall (registered (fst (fst w))) pre.
Proof.
  intros w.
  destruct (fromJson_failure_effects goto_compiler (Some machine_broken)
              new_FiniteStateMachine (fst (fst w)) store0 (snd (fst w))
              (failure INVALID_DATA (Some (NodeState broken_descr))))
    as (_ & Hstate & _).
  { vm_compute. reflexivity. }
  { reflexivity. }
  destruct (Hstate broken_descr eq_refl) as (doc & pre & post & Hd & Hs & Hreg).
  injection Hd as <-. by exists pre, post.
Defined.



(** X4, on the coin machine: [c] is marked, and stays marked when it is added
    again without the mark. *)
Lemma marks_never_removed_witness :
  "c" ∈ acceptanceMarks
          (machine (run goto_compiler [CallAddState "c" false; CallNext JNull (Some "q")]
                      {| machine := coin_machine; heap := store0; log := [] |})).
Proof.
  apply (marks_never_removed goto_compiler).
  - repeat constructor; discriminate.
  - apply (bool_decide_unpack _). vm_compute. exact I.
Defined.

(** X5, on the coin machine: the rule of [q] survives a second registration
    and a load that describes nothing named [q]. *)
Lemma rules_never_replaced_witness :
  _transitions
    (machine (run goto_compiler
                [CallAddTransition "q" f1; CallFromJson (Some machine1)]
                {| machine := coin_machine; heap := store0; log := [] |})) !! "q"
  = Some to_c.
Proof.
  apply (rules_never_replaced goto_compiler).
  - repeat constructor; discriminate.
  - vm_compute. reflexivity.
Defined.

(** X6, on a run that subscribes observer 7 only. *)
Lemma unsubscribed_observer_witness :
  filter (fun d => dl_observer d = 8)
    (log (run goto_compiler
            [CallFromJson (Some machine1); CallAddSubscriber (Some 7);
             CallNext (JStr "a") None]
            (new_World store0)))
  = [].
Proof.
  apply (unsubscribed_observer_receives_nothing goto_compiler).
  repeat constructor; discriminate.
Defined.

(** X9, on the load of [machine_broken]. *)
Lemma fromJson_result_kinds_witness :
  action (failure INVALID_DATA (Some (NodeState broken_descr)))
    ∈ [NO_DATA; MISSING_PROPS; INVALID_DATA; NO_STATE; VALID].
Proof.
  destruct (fromJson_result_kinds goto_compiler (Some machine_broken)
              new_FiniteStateMachine
              (fst (fst (fromJson goto_compiler (Some machine_broken)
                           new_FiniteStateMachine store0)))
              store0
              (snd (fst (fromJson goto_compiler (Some machine_broken)
                           new_FiniteStateMachine store0)))
              (failure INVALID_DATA (Some (NodeState broken_descr))))
    as (H1 & _ & _).
  { vm_compute. reflexivity. }
  exact H1.
Defined.

(** X11, on the load of [machine_garbled]: the SyntaxError is thrown with
    [S1] registered. *)
Lemma fromJson_throws_witness :
  exists m', fromJson goto_compiler (Some machine_garbled) new_FiniteStateMachine store0
             = (m', store0 ++ [CArray [JStr "a"; JStr "b"]], Throw SyntaxError)
             /\ Forall (registered m') [S1_descr].
Proof.
  destruct (fromJson_throws_when goto_compiler machine_garbled new_FiniteStateMachine
              store0 "Garbled" 0 [JStr "a"; JStr "b"] eq_refl eq_refl eq_refl)
    as [Hsyntax _].
  apply (Hsyntax [S1_descr] garbled_descr [] "syntax error("); try reflexivity.
  - repeat constructor; eauto; eexists; (split; [reflexivity|]); vm_compute; eauto.
  - by eexists.
  - by eexists.
Defined.

(** X12, on the load of [machine_twice] into a new machine. *)
Lemma fromJson_registers_witness :
  let m' := fst (fst (fromJson goto_compiler (Some machine_twice)
                        new_FiniteStateMachine store0)) in
  _states m' = _states new_FiniteStateMachine
               ∪ registered_names [S1_descr; S1_again; S2_descr]
  /\ acceptanceMarks m' = acceptanceMarks new_FiniteStateMachine
                          ∪ (marked_names [S1_descr; S1_again; S2_descr]
                             ∖ {["__proto__"]}).
Proof.
  intros m'.
  destruct (fromJson_registers goto_compiler machine_twice new_FiniteStateMachine m'
              store0
              (snd (fst (fromJson goto_compiler (Some machine_twice)
                           new_FiniteStateMachine store0)))
              valid)
    as (H1 & _ & H3).
  { vm_compute. reflexivity. }
  { reflexivity. }
  { apply not_elem_of_empty. }
  split; [exact H1 | exact H3].
Defined.

(** X13, on the same load: [S1] gets the transition of its first
    descriptor, to [S2]. *)
Lemma fromJson_first_descriptor_witness :
  let m' := fst (fst (fromJson goto_compiler (Some machine_twice)
                        new_FiniteStateMachine store0)) in
  _transitions m' !! "S1" = goto_compiler "S2".
Proof.
  intros m'.
  apply (fromJson_first_descriptor_wins goto_compiler machine_twice
           new_FiniteStateMachine m' store0
           (snd (fst (fromJson goto_compiler (Some machine_twice)
                        new_FiniteStateMachine store0)))
           valid "S1").
  - vm_compute. reflexivity.
  - reflexivity.
  - apply not_elem_of_empty.
  - discriminate.
Defined.

(** X14, on [machine1]: the first step leaves [S1] for [S2]. *)
Lemma loaded_machine_steps_witness :
  let m' := fst (fst (fromJson goto_compiler (Some machine1)
                        new_FiniteStateMachine store0)) in
  snd (next (JStr "a") None m') = Some {| out_to := "S2"; out_data := JStr "a" |}
  /\ currentState (fst (fst (next (JStr "a") None m'))) = "S2".
Proof.
  intros m'.
  apply (loaded_machine_steps goto_compiler machine1 m' store0
           (snd (fst (fromJson goto_compiler (Some machine1)
                        new_FiniteStateMachine store0)))
           valid "S1"
           (fun data _ => {| out_to := "S2"; out_data := data |}) (JStr "a")).
  - vm_compute. reflexivity.
  - reflexivity.
  - reflexivity.
  - discriminate.
  - reflexivity.
Defined.

(** X15, on [machine1]: the machine [create] returns is named as asked. *)
Lemma create_witness :
  (exists m h', create goto_compiler (Some machine1) (Some "Mine") store0
                = (h', Normal (Some m)))
  /\ forall m h', create goto_compiler (Some machine1) (Some "Mine") store0
                  = (h', Normal (Some m)) ->
       name m = "Mine".
Proof.
  destruct (create_names_the_machine goto_compiler machine1 (Some "Mine") store0)
    as (_ & Hiff & Hname & _).
  split.
  - apply Hiff. exists "Machine1", 0, [JStr "a"; JStr "b"], [S1_descr; S2_descr].
    do 4 (split; [reflexivity|]). split; [discriminate|]. split.
    + repeat constructor; eauto; eexists; (split; [reflexivity|]); vm_compute; eauto.
    + simpl. split; [reflexivity|]. vm_compute. eauto.
  - intros m h' Hc. by destruct (Hname m h' Hc) as [-> _].
Defined.

(** X18, on [machine1]: after the document's initial data object (cell 1)
    is overwritten, [initialData] still returns the loaded amounts. *)
Lemma initialData_snapshot_witness :
  let w := fromJson goto_compiler (Some machine1) new_FiniteStateMachine store0 in
  exists j ext1 r1 ext2 r2,
    initialData (fst (fst w)) (snd (fst w)) = (snd (fst w) ++ ext1, Normal r1)
    /\ deep (snd (fst w) ++ ext1) r1 = Some j
    /\ initialData (fst (fst w))
         (mutate_all [Write 1 (CObject [("amt", JNum 0)])] (snd (fst w)))
       = (mutate_all [Write 1 (CObject [("amt", JNum 0)])] (snd (fst w)) ++ ext2,
          Normal r2)
    /\ deep (mutate_all [Write 1 (CObject [("amt", JNum 0)])] (snd (fst w)) ++ ext2) r2
       = Some j.
Proof.
  intros w.
  apply (initialData_is_a_snapshot goto_compiler machine1 new_FiniteStateMachine
           (fst (fst w)) store0 (snd (fst w)) valid (JRef 1)).
  - vm_compute. reflexivity.
  - reflexivity.
  - reflexivity.
  - repeat constructor.
Defined.

(** X19, on [machine1]: after the document's alphabet array (cell 0) is
    overwritten, [alphabet] still returns the loaded letters. *)
Lemma alphabet_snapshot_witness :
  let w := fromJson goto_compiler (Some machine1) new_FiniteStateMachine store0 in
  alphabet (fst (fst w)) (mutate_all [Write 0 (CArray [JStr "z"])] (snd (fst w)))
  = (mutate_all [Write 0 (CArray [JStr "z"])] (snd (fst w)) ++ [CArray [JStr "a"; JStr "b"]],
     Normal (JRef (length (mutate_all [Write 0 (CArray [JStr "z"])] (snd (fst w)))))).
Proof.
  intros w.
  apply (alphabet_is_a_snapshot goto_compiler machine1 new_FiniteStateMachine
           (fst (fst w)) store0 (snd (fst w)) valid 0).
  - vm_compute. reflexivity.
  - reflexivity.
  - reflexivity.
  - reflexivity.
  - repeat constructor. discriminate.
Defined.
